(** * Path_Finder: the pygame front end ([src/pathfinder/gui.py])

    A shallow embedding of the [GUI] class: its constructor, the mapping of a
    pointer position to a grid cell, the event handler and the main loop.
    Python exceptions are explicit results, the in-place mutation of the
    graph is explicit state passing, and every call the handler makes on the
    graph (or on pygame) is recorded in a trace, so that statements about
    what the handler runs, and in which order, can be written down. *)

From Stdlib Require Import ZArith List Bool Lia.
From stdpp Require Import base option list gmap.
Import ListNotations.

Local Open Scope Z_scope.

(** ** Python values used by the front end *)

(** The exceptions the modelled code can raise; [PygameError] stands for
    [pygame.error]. *)
Inductive Exception : Type :=
| IndexError
| ZeroDivisionError
| TypeError
| OverflowError
| PygameError.

(** The exact quotient [a / b] ([b] non-zero) rounded to the nearest
    integer, halves to the even neighbour.  This is rounding in the
    integers; Python's [round(a / b)], which goes through a float, is
    [py_round_div] below. *)
Definition round_half_even (a b : Z) : Z :=
  let n := if b <? 0 then - a else a in
  let d := Z.abs b in
  let q := n / d in
  let r := n mod d in
  if 2 * r <? d then q
  else if d <? 2 * r then q + 1
  else if Z.even q then q else q + 1.

(** The least magnitude that is too large for a float: halfway between
    the largest double, [(2^53 - 1) * 2^971], and [2^1024]. *)
Definition float_limit : Z := 2 ^ 1024 - 2 ^ 970.

(** [round(n / d)] for [0 <= n] and [0 < d] with [n / d] below
    [float_limit].  The true division of two integers is the double nearest
    to the exact quotient, halves to the even mantissa: a mantissa [m] of 53
    bits and a power of two.  From [2^52] on the double is the integer
    [m * 2^e]; below, it is [m / 2^k], which [round] rounds once more.
    Quotients below the normal range need no case of their own: with or
    without the full mantissa they round to 0. *)
Definition round_float_quotient (n d : Z) : Z :=
  if 2 ^ 52 * d <=? n then
    let e := Z.log2 (n / (2 ^ 52 * d)) in
    round_half_even n (d * 2 ^ e) * 2 ^ e
  else if n =? 0 then 0
  else
    let k := Z.log2_up ((2 ^ 52 * d + n - 1) / n) in
    round_half_even (round_half_even (n * 2 ^ k) d) (2 ^ k).

(** [round(a / b)] for Python integers [a] and [b]: ZeroDivisionError for
    [b = 0], OverflowError when the quotient is too large for a float. *)
Definition py_round_div (a b : Z) : Exception + Z :=
  if b =? 0 then inl ZeroDivisionError
  else if float_limit * Z.abs b <=? Z.abs a then inl OverflowError
  else inr (Z.sgn a * Z.sgn b * round_float_quotient (Z.abs a) (Z.abs b)).

(** Whether the conversion of the integer [n] to a float, as for an
    argument pygame reads as a float, raises OverflowError. *)
Definition float_overflows (n : Z) : bool := float_limit <=? Z.abs n.

(** [seq[i]] on a Python list: indices in [[0, len)] read from the front,
    indices in [[-len, 0)] from the back, anything else raises IndexError
    (here [None]).  The position actually read is returned with the element. *)
Definition py_getitem {A : Type} (l : list A) (i : Z) : option (nat * A) :=
  let n := Z.of_nat (length l) in
  let j := if i <? 0 then i + n else i in
  if (0 <=? j) && (j <? n)
  then (fun a => (Z.to_nat j, a)) <$> (l !! Z.to_nat j)
  else None.

(** pygame key codes of the five commands. *)
Definition K_ESCAPE : Z := 27.
Definition K_a : Z := 97.
Definition K_c : Z := 99.
Definition K_d : Z := 100.
Definition K_m : Z := 109.

(** ** [pathfinder.util.state.State] *)

(** Modelled from the spec: the enumeration [State] is imported by the front
    end from [pathfinder.util.state], a module kept outside [gui.py]; the
    seven members are those the data model lists. *)
Inductive State : Type :=
| EMPTY | START | END | BARRIER | OPEN | CLOSED | PATH.

#[global] Instance State_eq_dec : EqDecision State.
Proof. solve_decision. Defined.

(** Modelled from the spec: the colour constants of [pathfinder.util.colour]
    live outside [gui.py]; a cell's state determines its colour, empty cells
    are white, barriers black, the other states have colours of their own. *)
Inductive Colour : Type :=
| WHITE | BLACK | GREY | ORANGE | TURQUOISE | GREEN | RED | PURPLE.

Definition colour_of (s : State) : Colour :=
  match s with
  | EMPTY => WHITE
  | BARRIER => BLACK
  | START => ORANGE
  | END => TURQUOISE
  | OPEN => GREEN
  | CLOSED => RED
  | PATH => PURPLE
  end.

(** A cell is named by its row and column in the grid.  Cells are created
    once and never copied, so comparing two cells is comparing positions. *)
Definition pos : Type := nat * nat.

(** ** Cells *)
Module Node.

(** Modelled from the spec: the class of the grid's cells lives outside
    [gui.py].  A cell holds its indices, its pixel position, its state and
    the predecessor link the searches record. *)
Record t : Type := mk {
  row : nat;
  col : nat;
  x : Z;
  y : Z;
  state : State;
  previous : option pos
}.

Definition colour (n : t) : Colour := colour_of (state n).

(** Modelled from the spec: a fresh cell is EMPTY and sits at pixel
    [(col * width, row * width)]. *)
Definition new (r c : nat) (width : Z) : t :=
  mk r c (Z.of_nat c * width) (Z.of_nat r * width) EMPTY None.

(** Modelled from the spec: every setter overwrites the state (and with it
    the colour) unconditionally. *)
Definition set_state (s : State) (n : t) : t :=
  mk (row n) (col n) (x n) (y n) s (previous n).

Definition set_start : t -> t := set_state START.
Definition set_end : t -> t := set_state END.
Definition set_barrier : t -> t := set_state BARRIER.
Definition set_open : t -> t := set_state OPEN.
Definition set_closed : t -> t := set_state CLOSED.
Definition set_path : t -> t := set_state PATH.
Definition reset : t -> t := set_state EMPTY.

Definition set_previous (p : option pos) (n : t) : t :=
  mk (row n) (col n) (x n) (y n) (state n) p.

End Node.

(** ** The graph *)
Module Graph.

(** Modelled from the spec: the class [Graph] lives in [pathfinder.graph],
    outside [gui.py].  It owns the cells, row by row, at most one start and
    one end cell (references into the grid, here positions) and the flag
    telling that a path has been computed. *)
Record t : Type := mk {
  grid : list (list Node.t);
  start : option pos;
  end_ : option pos;
  paths : bool
}.

Definition node_at (g : t) (p : pos) : option Node.t :=
  grid g !! fst p ≫= fun cells => cells !! snd p.

Definition state_at (g : t) (p : pos) : option State :=
  Node.state <$> node_at g p.

(** In-place update of the cell at [p]; no cell, no change. *)
Definition alter_node (f : Node.t -> Node.t) (p : pos) (g : t) : t :=
  mk (alter (alter f (snd p)) (fst p) (grid g)) (start g) (end_ g) (paths g).

(** Modelled from the spec: [Graph(rows, width)] builds a square grid of
    EMPTY cells (the window is a square, so rows and columns agree), with
    no start, no end and no path. *)
Definition new (rows width : Z) : t :=
  let n := Z.to_nat rows in
  mk (map (fun r => map (fun c => Node.new r c width) (seq 0 n)) (seq 0 n))
     None None false.

(** Modelled from the spec: [set_start] and [set_end] assign the reference
    and set the cell's state. *)
Definition set_start (p : pos) (g : t) : t :=
  let g' := alter_node Node.set_start p g in
  mk (grid g') (Some p) (end_ g') (paths g').

Definition set_end (p : pos) (g : t) : t :=
  let g' := alter_node Node.set_end p g in
  mk (grid g') (start g') (Some p) (paths g').

(** The two assignments [self.graph.start = None] and
    [self.graph.end = None] of the handler. *)
Definition clear_start (g : t) : t := mk (grid g) None (end_ g) (paths g).
Definition clear_end (g : t) : t := mk (grid g) (start g) None (paths g).

(** Modelled from the spec: [reset] clears every cell to EMPTY, both
    references and the flag. *)
Definition reset (g : t) : t :=
  mk (map (map Node.reset) (grid g)) None None false.

Definition discovered (s : State) : bool :=
  match s with
  | OPEN | CLOSED | PATH => true
  | _ => false
  end.

(** Modelled from the spec: [reset_discovered] reverts OPEN, CLOSED and
    PATH cells to EMPTY and keeps START, END, BARRIER and both references.
    Whether it also clears the flag is left open by the spec:
    [clears_paths] selects the policy. *)
Definition reset_discovered (clears_paths : bool) (g : t) : t :=
  mk (map (map (fun n => if discovered (Node.state n) then Node.reset n else n))
          (grid g))
     (start g) (end_ g) (if clears_paths then false else paths g).

(** The four long-running methods of the graph, and the policy of
    [reset_discovered], belong to [pathfinder.graph] as well.  The handler
    only calls them, so they are an interface here; what the invariants
    need from them is stated in [Frame] below, and [Model] gives an
    implementation after the spec. *)
Class Algorithms : Type := {
  clears_paths : bool;
  a_star : t -> t;
  dijkstra : t -> t;
  generate_maze : t -> t;
  mark_path : bool -> t -> t
}.

(** [g'] differs from [g] at most in the state of some cells, and a cell
    whose state changed is now in a state that [allowed] accepts. *)
Definition touches_only (allowed : State -> bool) (g g' : t) : Prop :=
  start g' = start g /\ end_ g' = end_ g /\
  forall p, state_at g' p = state_at g p \/
            exists s, state_at g' p = Some s /\ allowed s = true.

Definition maze_state (s : State) : bool :=
  match s with
  | EMPTY | BARRIER => true
  | _ => false
  end.

(** What the spec promises of the four methods, as far as the cell states
    and the two references go: the searches and [mark_path] only turn cells
    OPEN, CLOSED or PATH; the maze generator only empties cells or makes
    them barriers; none of them designates another start or end cell. *)
Class Frame (alg : Algorithms) : Prop := {
  a_star_frame : forall g, touches_only discovered g (a_star g);
  dijkstra_frame : forall g, touches_only discovered g (dijkstra g);
  mark_path_frame : forall flag g, touches_only discovered g (mark_path flag g);
  generate_maze_frame : forall g, touches_only maze_state g (generate_maze g)
}.

(** *** The invariants of the data model *)

Definition at_most_one (s : State) (g : t) : Prop :=
  forall p q, state_at g p = Some s -> state_at g q = Some s -> p = q.

Definition start_end_distinct (g : t) : Prop :=
  forall p q, start g = Some p -> end_ g = Some q -> p <> q.

Definition barrier_not_designated (g : t) : Prop :=
  forall p, state_at g p = Some BARRIER ->
            start g <> Some p /\ end_ g <> Some p.

Definition cell_invariants (g : t) : Prop :=
  at_most_one START g /\ at_most_one END g /\
  start_end_distinct g /\ barrier_not_designated g.

(** The inductive strengthening: a cell in state START (END) is the one
    the start (end) reference designates. *)
Definition coherent (g : t) : Prop :=
  (forall p, state_at g p = Some START -> start g = Some p) /\
  (forall p, state_at g p = Some END -> end_ g = Some p) /\
  start_end_distinct g /\ barrier_not_designated g.

(** All cells EMPTY, nothing designated, no path: a grid as [reset] leaves
    it. *)
Definition is_reset (g : t) : Prop :=
  (forall p s, state_at g p = Some s -> s = EMPTY) /\
  start g = None /\ end_ g = None /\ paths g = false.

End Graph.

(** ** The graph's algorithms, after the spec *)
Module Model.

Import Graph.

Definition with_paths (b : bool) (g : t) : t :=
  mk (grid g) (start g) (end_ g) b.

Definition cell_count (g : t) : nat := length (concat (grid g)).

(** Modelled from the spec: [mark_path] walks the predecessor links from
    the end cell back to the start cell and marks every intermediate cell
    PATH ([true]) or reverts it to CLOSED ([false]).  A chain without
    repetition is no longer than the grid has cells. *)
Fixpoint walk (fuel : nat) (mark : Node.t -> Node.t) (cur : option pos)
    (g : t) : t :=
  match fuel, cur with
  | S fuel', Some p =>
      if bool_decide (start g = Some p) then g
      else walk fuel' mark (node_at g p ≫= Node.previous)
                (alter_node mark p g)
  | _, _ => g
  end.

Definition mark_path (should_mark : bool) (g : t) : t :=
  match end_ g with
  | None => g
  | Some e =>
      walk (cell_count g)
           (if should_mark then Node.set_path else Node.set_closed)
           (node_at g e ≫= Node.previous) g
  end.

(** Modelled from the spec: the neighbours of a cell are the up to four
    orthogonally adjacent cells inside the grid that are not barriers. *)
Definition adjacent (p : pos) : list pos :=
  let '(r, c) := p in
  match r with O => [] | S r' => [(r', c)] end ++
  [(S r, c)] ++
  match c with O => [] | S c' => [(r, c')] end ++
  [(r, S c)].

Definition passable (g : t) (q : pos) : bool :=
  match state_at g q with
  | Some s => negb (bool_decide (s = BARRIER))
  | None => false
  end.

Definition neighbors (g : t) (p : pos) : list pos :=
  List.filter (passable g) (adjacent p).

(** An entry of the open set: priority, insertion counter, cell. *)
Definition entry : Type := Z * nat * pos.

Definition before (a b : entry) : bool :=
  let '(fa, ca, _) := a in
  let '(fb, cb, _) := b in
  (fa <? fb) || ((fa =? fb) && (ca <? cb)%nat).

Fixpoint pop_min (l : list entry) : option (entry * list entry) :=
  match l with
  | [] => None
  | a :: l' =>
      match pop_min l' with
      | None => Some (a, [])
      | Some (b, rest) =>
          if before b a then Some (b, a :: rest) else Some (a, l')
      end
  end.

Record Search : Type := mkSearch {
  now : t;
  open_set : list entry;
  cost : gmap pos Z;
  counter : nat
}.

Definition in_open (p : pos) (l : list entry) : bool :=
  existsb (fun e => bool_decide (snd e = p)) l.

Definition finalized (g : t) (q : pos) : bool :=
  bool_decide (state_at g q = Some CLOSED).

(** Modelled from the spec: a neighbour reached at a lower cost gets the
    current cell as predecessor and its costs updated; if it is not in the
    open set it is inserted and marked OPEN.  The end cell is inserted but
    keeps its state: the handler's right-click branch tests for a cell in
    state END while a path exists. *)
Definition relax (h : pos -> Z) (cur : pos) (st : Search) (nb : pos)
    : Search :=
  let tentative := default 0 (cost st !! cur) + 1 in
  let improved :=
    match cost st !! nb with
    | Some old => tentative <? old
    | None => true
    end in
  if finalized (now st) nb || negb improved then st
  else
    let g1 := alter_node (Node.set_previous (Some cur)) nb (now st) in
    let c1 := <[nb := tentative]> (cost st) in
    if in_open nb (open_set st) then
      mkSearch g1
        (map (fun e => if bool_decide (snd e = nb)
                       then (tentative + h nb, snd (fst e), nb) else e)
             (open_set st))
        c1 (counter st)
    else
      mkSearch (if bool_decide (end_ g1 = Some nb) then g1
                else alter_node Node.set_open nb g1)
               ((tentative + h nb, counter st, nb) :: open_set st)
               c1 (S (counter st)).

(** Modelled from the spec: the search loop.  The entry of lowest priority
    is popped; the end cell ends the search with a path; any other cell has
    its neighbours relaxed and is then marked CLOSED, unless it is the start
    cell.  An empty open set ends the search without a path.  [steps]
    bounds the number of expansions: the window may be closed in the middle
    of a search, which leaves the grid as the last step drew it. *)
Fixpoint expand (steps : nat) (h : pos -> Z) (st : Search) : t :=
  match steps with
  | O => now st
  | S n =>
      match pop_min (open_set st) with
      | None => now st
      | Some ((_, _, cur), rest) =>
          if bool_decide (end_ (now st) = Some cur) then
            with_paths true (now st)
          else
            let st1 :=
              fold_left (relax h cur) (neighbors (now st) cur)
                        (mkSearch (now st) rest (cost st) (counter st)) in
            let g2 :=
              if bool_decide (start (now st) = Some cur) then now st1
              else alter_node Node.set_closed cur (now st1) in
            expand n h (mkSearch g2 (open_set st1) (cost st1) (counter st1))
      end
  end.

Definition search (steps : nat) (h : pos -> Z) (g : t) : t :=
  match start g with
  | None => g
  | Some s => expand steps h (mkSearch g [(h s, O, s)] {[ s := 0 ]} 1%nat)
  end.

Definition manhattan (e p : pos) : Z :=
  Z.abs (Z.of_nat (fst p) - Z.of_nat (fst e)) +
  Z.abs (Z.of_nat (snd p) - Z.of_nat (snd e)).

(** Modelled from the spec: A* orders the open set by cost plus Manhattan
    distance to the end cell, Dijkstra by cost alone. *)
Definition a_star (steps : nat) (g : t) : t :=
  match end_ g with
  | None => g
  | Some e => search steps (manhattan e) g
  end.

Definition dijkstra (steps : nat) (g : t) : t :=
  search steps (fun _ => 0) g.

(** Modelled from the spec: the maze generator turns a random subset of
    the cells that are neither start nor end into barriers; [bits] is the
    random source, one bit per cell in row-major order.  When both a start
    and an end exist, the start's row and the end's column stay free, so a
    path between them exists by construction. *)
Definition keeps_free (g : t) (p : pos) : bool :=
  bool_decide (start g = Some p) || bool_decide (end_ g = Some p) ||
  match start g, end_ g with
  | Some s, Some e =>
      bool_decide (fst p = fst s) || bool_decide (snd p = snd e)
  | _, _ => false
  end.

Definition maze_row (g : t) (bits : list bool) (width : nat)
    (r : nat) (cells : list Node.t) : list Node.t :=
  imap (fun c n =>
          if negb (keeps_free g (r, c)) && default false (bits !! (r * width + c)%nat)
          then Node.set_barrier n else n)
       cells.

Definition generate_maze (bits : list bool) (g : t) : t :=
  mk (imap (fun r cells => maze_row g bits (length (grid g)) r cells) (grid g))
     (start g) (end_ g) (paths g).

Definition algorithms (steps : nat) (bits : list bool) (policy : bool)
    : Algorithms :=
  {| clears_paths := policy;
     Graph.a_star := a_star steps;
     Graph.dijkstra := dijkstra steps;
     Graph.generate_maze := generate_maze bits;
     Graph.mark_path := mark_path |}.

End Model.

(** ** The front end *)
Module GUI.

Import Graph.

(** The attributes of a [GUI] object; the pygame window is not state of the
    model, what is drawn on it goes to the trace. *)
Record t : Type := mk {
  rows : Z;
  columns : Z;
  width : Z;
  vertex_width : Z;
  graph : Graph.t
}.

Definition with_graph (g : Graph.t) (s : t) : t :=
  mk (rows s) (columns s) (width s) (vertex_width s) g.

(** pygame's display as the constructor meets it: [set_mode w] is the
    exception [pygame.display.set_mode((w, w))] raises, if any.  Which
    sizes a display can open is its own business; a negative size is
    refused by every one. *)
Class Display : Type := {
  set_mode : Z -> option Exception;
  set_mode_negative : forall w, w < 0 -> set_mode w = Some PygameError
}.

(** [GUI.__init__]: the two sizes are rounded float quotients, either of
    which can raise; the graph is built from the rounded sizes, and the
    window is opened last. *)
Definition init {display : Display} (rows width : Z) : Exception + t :=
  match py_round_div rows 2 with
  | inl e => inl e
  | inr self_rows =>
      match py_round_div width rows with
      | inl e => inl e
      | inr cells =>
          let self_vertex_width := 2 * cells in
          let self_graph := Graph.new self_rows self_vertex_width in
          match set_mode width with
          | Some e => inl e
          | None => inr (mk self_rows rows width self_vertex_width self_graph)
          end
      end
  end.

(** What the front end asks of the graph, of a cell, or of pygame. *)
Inductive Call : Type :=
| Set_start (p : pos)
| Set_end (p : pos)
| Clear_start
| Clear_end
| Set_barrier (p : pos)
| Set_closed (p : pos)
| Node_reset (p : pos)
| Mark_path (flag : bool)
| Graph_reset
| Reset_discovered
| A_star
| Dijkstra
| Generate_maze
| Fill (c : Colour)
| Draw_rect (c : Colour) (x y w h : Z)
| Clock_tick (fps : Z)
| Display_update
| Pygame_quit.

(** One input of the handler: an event of the queue and what
    [pygame.mouse] answers while that event is being handled. *)
Inductive Event : Type :=
| QUIT
| KEYDOWN (key : Z)
| OTHER.

Record Mouse : Type := mkMouse {
  get_pressed : bool * bool * bool;
  get_pos : Z * Z
}.

Definition pressed (i : nat) (m : Mouse) : bool :=
  let '(b0, b1, b2) := get_pressed m in
  match i with
  | O => b0
  | S O => b1
  | _ => b2
  end.

(** A line [pygame.draw.line] is asked for: colour, first and last point. *)
Record Line : Type := mkLine {
  line_colour : Colour;
  line_from : Z * Z;
  line_to : Z * Z
}.

(** The horizontal line of row [i] and the vertical line of column [j], as
    [draw_grid] computes them. *)
Definition horizontal (s : t) (i : Z) : Line :=
  mkLine GREY (0, i * vertex_width s) (width s, i * vertex_width s).

Definition vertical (s : t) (j : Z) : Line :=
  mkLine GREY (j * vertex_width s, 0) (j * vertex_width s, width s).

(** [GUI.draw_grid]: one horizontal line per row and, inside the loop over
    the rows, one vertical line per column.  The method reads the object and
    draws; the lines drawn, in order, are its result here.  [range(n)] is
    [seqZ 0 n], empty when [n] is not positive. *)
Definition draw_grid (s : t) : list Line :=
  flat_map (fun i => horizontal s i :: map (vertical s) (seqZ 0 (columns s)))
           (seqZ 0 (rows s)).

Section Handler.

Context {alg : Graph.Algorithms}.

(** The effect of each call on the graph. *)
Definition exec (c : Call) (g : Graph.t) : Graph.t :=
  match c with
  | Set_start p => Graph.set_start p g
  | Set_end p => Graph.set_end p g
  | Clear_start => Graph.clear_start g
  | Clear_end => Graph.clear_end g
  | Set_barrier p => Graph.alter_node Node.set_barrier p g
  | Set_closed p => Graph.alter_node Node.set_closed p g
  | Node_reset p => Graph.alter_node Node.reset p g
  | Mark_path flag => Graph.mark_path flag g
  | Graph_reset => Graph.reset g
  | Reset_discovered => Graph.reset_discovered Graph.clears_paths g
  | A_star => Graph.a_star g
  | Dijkstra => Graph.dijkstra g
  | Generate_maze => Graph.generate_maze g
  | Fill _ | Draw_rect _ _ _ _ _ | Clock_tick _ | Display_update
  | Pygame_quit => g
  end.

(** A method run: the value returned or the exception raised, the object
    afterwards, and the calls made, in order. *)
Record Run (A : Type) : Type := mkRun {
  value : Exception + A;
  final : t;
  calls : list Call
}.
Arguments mkRun {A} _ _ _.
Arguments value {A} _.
Arguments final {A} _.
Arguments calls {A} _.

Definition M (A : Type) : Type := t -> Run A.

Definition ret {A} (a : A) : M A := fun s => mkRun (inr a) s [].

Definition bind {A B} (m : M A) (k : A -> M B) : M B := fun s =>
  let r := m s in
  match value r with
  | inl e => mkRun (inl e) (final r) (calls r)
  | inr a =>
      let r' := k a (final r) in
      mkRun (value r') (final r') (calls r ++ calls r')
  end.

Definition raise {A} (e : Exception) : M A := fun s => mkRun (inl e) s [].

Definition get : M t := fun s => mkRun (inr s) s [].

Definition call (c : Call) : M unit := fun s =>
  mkRun (inr tt) (with_graph (exec c (graph s)) s) [c].

Definition when (b : bool) (m : M unit) : M unit :=
  if b then m else ret tt.

Fixpoint for_each {A} (l : list A) (body : A -> M unit) : M unit :=
  match l with
  | [] => ret tt
  | a :: l' => bind (body a) (fun _ => for_each l' body)
  end.

Notation "x <- m ;; k" := (bind m (fun x => k))
  (at level 100, m at next level, right associativity).
Notation "m ;;; k" := (bind m (fun _ => k))
  (at level 100, right associativity).

(** Truth value of [self.graph.start] and [self.graph.end]: None is
    false, a cell (an object without a truth value of its own) is true. *)
Definition truthy (o : option pos) : bool :=
  match o with
  | Some _ => true
  | None => false
  end.

(** Modelled from the spec: [node != other], where [other] is a cell or
    None; two cells are equal if and only if they are the same cell of the
    grid, and no cell equals None. *)
Definition node_ne (p : pos) (o : option pos) : bool :=
  match o with
  | Some q => negb (bool_decide (p = q))
  | None => true
  end.

Definition node_eq (p : pos) (o : option pos) : bool := negb (node_ne p o).

Definition state_is (s : State) (n : Node.t) : bool :=
  bool_decide (Node.state n = s).

(** [GUI.get_click_pos]: floor division of both pixel coordinates by the
    cell width; division by zero raises. *)
Definition get_click_pos (xy : Z * Z) : M (Z * Z) :=
  let '(x, y) := xy in
  s <- get ;;
  if vertex_width s =? 0 then raise ZeroDivisionError
  else
    let row := y / vertex_width s in
    let col := x / vertex_width s in
    ret (row, col).

(** [self.graph.grid[row][col]]: two list subscripts, no check before. *)
Definition grid_getitem (row col : Z) : M (pos * Node.t) :=
  s <- get ;;
  match py_getitem (grid (graph s)) row with
  | None => raise IndexError
  | Some (r, cells) =>
      match py_getitem cells col with
      | None => raise IndexError
      | Some (c, node) => ret ((r, c), node)
      end
  end.

(** The three lines every pointer branch starts with. *)
Definition clicked_node (m : Mouse) : M (pos * Node.t) :=
  rc <- get_click_pos (get_pos m) ;;
  grid_getitem (fst rc) (snd rc).

(** The pointer is over the cell at [p]: the row and the column computed
    from its pixel position lie inside the grid. *)
Definition points_at (s : t) (m : Mouse) (p : pos) : Prop :=
  let row := snd (get_pos m) / vertex_width s in
  let col := fst (get_pos m) / vertex_width s in
  vertex_width s <> 0 /\ 0 <= row /\ 0 <= col /\
  p = (Z.to_nat row, Z.to_nat col) /\
  is_Some (node_at (graph s) p).

(** The pointer is below the last row, or right of the last cell of its
    row. *)
Definition points_beyond (s : t) (m : Mouse) : Prop :=
  let row := snd (get_pos m) / vertex_width s in
  let col := fst (get_pos m) / vertex_width s in
  vertex_width s <> 0 /\
  (Z.of_nat (length (grid (graph s))) <= row \/
   exists cells, 0 <= row /\ grid (graph s) !! Z.to_nat row = Some cells /\
                 Z.of_nat (length cells) <= col).

(** Left button: set the start cell, else a barrier. *)
Definition left_click (m : Mouse) : M unit :=
  pn <- clicked_node m ;;
  let p := fst pn in
  s <- get ;;
  let g := graph s in
  if negb (truthy (start g)) && node_ne p (end_ g) then
    call (Set_start p)
  else if node_ne p (end_ g) && node_ne p (start g) && negb (paths g) then
    call (Set_barrier p)
  else ret tt.

(** Middle button: set the end cell. *)
Definition middle_click (m : Mouse) : M unit :=
  pn <- clicked_node m ;;
  let p := fst pn in
  let node := snd pn in
  s <- get ;;
  let g := graph s in
  if negb (truthy (end_ g)) && node_ne p (start g)
     && negb (state_is BARRIER node) then
    call (Set_end p) ;;;
    s' <- get ;;
    when (paths (graph s')) (call (Mark_path false))
  else ret tt.

(** Right button: delete the clicked cell if that is allowed. *)
Definition right_click (m : Mouse) : M unit :=
  pn <- clicked_node m ;;
  let p := fst pn in
  let node := snd pn in
  s <- get ;;
  let g := graph s in
  if state_is END node
     || (negb (paths g) && state_is BARRIER node)
     || (negb (paths g) && state_is START node) then
    call (Node_reset p) ;;;
    s1 <- get ;;
    if node_eq p (start (graph s1)) then call Clear_start
    else if node_eq p (end_ (graph s1)) then
      when (paths (graph s1))
           (call (Mark_path true) ;;; call (Set_closed p)) ;;;
      call Clear_end
    else ret tt
  else ret tt.

(** The key commands. *)
Definition key_press (key : Z) : M unit :=
  s <- get ;;
  let g := graph s in
  if key =? K_ESCAPE then call Graph_reset
  else if key =? K_c then call Reset_discovered
  else if truthy (start g) && truthy (end_ g) && (key =? K_a) then
    call A_star ;;;
    s' <- get ;;
    when (truthy (end_ (graph s'))) (call (Mark_path false))
  else if truthy (start g) && (key =? K_d) then
    call Dijkstra ;;;
    s' <- get ;;
    when (truthy (end_ (graph s'))) (call (Mark_path false))
  else if key =? K_m then
    call Graph_reset ;;;
    call Generate_maze
  else ret tt.

(** The body of the [for] loop after the QUIT test: the pressed buttons
    are asked first, the event's type last. *)
Definition handle_event (ev : Event) (m : Mouse) : M unit :=
  if pressed 0 m then left_click m
  else if pressed 1 m then middle_click m
  else if pressed 2 m then right_click m
  else match ev with
       | KEYDOWN key => key_press key
       | _ => ret tt
       end.

(** [GUI.handle_events] on the events [pygame.event.get()] returned:
    False as soon as the window is closed, True at the end of the queue. *)
Fixpoint handle_events (queue : list (Event * Mouse)) : M bool :=
  match queue with
  | [] => ret true
  | (QUIT, _) :: _ => ret false
  | (ev, m) :: rest => handle_event ev m ;;; handle_events rest
  end.

(** [clock.tick(fps)]: pygame reads the argument as a float. *)
Definition clock_tick (fps : Z) : M unit :=
  if float_overflows fps then raise OverflowError
  else call (Clock_tick fps).

(** [GUI.draw], called with the positional arguments [args]: the
    signature asks for exactly one, [fps]. *)
Definition draw (args : list Z) : M unit :=
  match args with
  | [fps] =>
      s <- get ;;
      call (Fill WHITE) ;;;
      for_each (grid (graph s)) (fun row =>
        for_each row (fun cell =>
          call (Draw_rect (Node.colour cell) (Node.x cell) (Node.y cell)
                          (vertex_width s) (vertex_width s)))) ;;;
      clock_tick fps ;;;
      call Display_update
  | _ => raise TypeError
  end.

(** One turn of the [while] of [GUI.loop]: the condition, then the body.
    The value tells whether the loop goes on. *)
Definition loop_iteration (queue : list (Event * Mouse)) : M bool :=
  continue <- handle_events queue ;;
  if continue then draw [] ;;; ret true
  else ret false.

(** [GUI.loop], fed with the event queues of successive turns. *)
Fixpoint loop (frames : list (list (Event * Mouse))) : M unit :=
  match frames with
  | [] => ret tt
  | queue :: rest =>
      continue <- loop_iteration queue ;;
      if continue then loop rest else call Pygame_quit
  end.

(** The object after [handle_events] has been called on each queue of
    [queues] in turn, as a driver that polls once per frame does. *)
Fixpoint after (queues : list (list (Event * Mouse))) (s : t) : t :=
  match queues with
  | [] => s
  | queue :: rest => after rest (final (handle_events queue s))
  end.

End Handler.

Arguments mkRun {A} _ _ _.
Arguments value {A} _.
Arguments final {A} _.
Arguments calls {A} _.

End GUI.

(** ** Sample sessions *)
Module Examples.

Import GUI.

(** Searches of at most 100 expansions, a maze generator whose random
    source never asks for a barrier, a partial reset that keeps the flag. *)
Definition alg : Graph.Algorithms := Model.algorithms 100 [] false.

(** A display that opens every window of non-negative size. *)
Definition screen : Display :=
  {| set_mode := fun w => if w <? 0 then Some PygameError else None;
     set_mode_negative := fun w H =>
       eq_ind_r (x := true)
                (fun b : bool => (if b then Some PygameError else None)
                                 = Some PygameError)
                eq_refl (proj2 (Z.ltb_lt w 0) H) |}.

(** [GUI(8, 80)]: four rows of 20 pixel cells. *)
Definition gui0 : GUI.t := mk 4 8 80 20 (Graph.new 4 20).

(** [GUI(10, 84)]: five rows of 16 pixel cells in a window of 84 pixels. *)
Definition narrow : GUI.t := mk 5 10 84 16 (Graph.new 5 16).

Definition left (x y : Z) : Mouse := mkMouse (true, false, false) (x, y).
Definition middle (x y : Z) : Mouse := mkMouse (false, true, false) (x, y).
Definition right (x y : Z) : Mouse := mkMouse (false, false, true) (x, y).
Definition idle : Mouse := mkMouse (false, false, false) (0, 0).

(** A start in the top left corner, an end at row 2, column 3, a wall in
    column 1, then A*. *)
Definition session : list (Event * Mouse) :=
  [ (OTHER, left 5 5); (OTHER, middle 70 45);
    (OTHER, left 25 5); (OTHER, left 25 25); (OTHER, left 25 45);
    (KEYDOWN K_a, idle) ].

Definition solved : GUI.t := final (handle_events (alg := alg) session gui0).

(** After the session, the end cell deleted by a right click. *)
Definition unended : GUI.t :=
  final (handle_event (alg := alg) OTHER (right 70 45) solved).

(** A start cell in the corner, then Dijkstra with no end cell: the search
    runs until the open set is empty and finds no path. *)
Definition explored : GUI.t :=
  final (handle_events (alg := alg)
           [(OTHER, left 5 5); (KEYDOWN K_d, idle)] gui0).

(** [GUI(4, 2)]: a window half as wide as it has rows, cells of width 0. *)
Definition squeezed : GUI.t := mk 2 4 2 0 (Graph.new 2 0).

(** [GUI(1, 80)]: no row at all. *)
Definition single : GUI.t := mk 0 1 80 160 (Graph.new 0 160).

(** Only an end cell, in the top left corner. *)
Definition only_end : GUI.t :=
  final (handle_events (alg := alg) [(OTHER, middle 5 5)] gui0).

(** Only a start cell, in the top left corner. *)
Definition only_start : GUI.t :=
  final (handle_events (alg := alg) [(OTHER, left 5 5)] gui0).

End Examples.

(** * Properties *)

(** ** Cells of a graph after an update *)

Section GraphFacts.

Import Graph.

Lemma node_at_alter_node f p g q :
  node_at (alter_node f p g) q =
  if decide (p = q) then f <$> node_at g q else node_at g q.
Proof.
  destruct p as [r c], q as [r' c']. unfold node_at, alter_node. simpl.
  destruct (decide (r = r')) as [->|Hr].
  - rewrite list_lookup_alter_eq.
    destruct (grid g !! r') as [cells|] eqn:E; simpl.
    + destruct (decide (c = c')) as [->|Hc].
      * rewrite decide_True by reflexivity. apply list_lookup_alter_eq.
      * rewrite decide_False by congruence. by apply list_lookup_alter_ne.
    + by destruct (decide _).
  - rewrite list_lookup_alter_ne by done.
    by rewrite decide_False by congruence.
Qed.

Lemma state_at_set_state s p g q :
  state_at (alter_node (Node.set_state s) p g) q =
  if decide (p = q) then (fun _ => s) <$> state_at g q else state_at g q.
Proof.
  unfold state_at. rewrite node_at_alter_node.
  destruct (decide (p = q)); [|done].
  by destruct (node_at g q).
Qed.

Lemma state_at_set_previous o p g q :
  state_at (alter_node (Node.set_previous o) p g) q = state_at g q.
Proof.
  unfold state_at. rewrite node_at_alter_node.
  destruct (decide (p = q)); [|done].
  by destruct (node_at g q).
Qed.

Lemma node_at_map f g st en pa q :
  node_at (mk (map (map f) (grid g)) st en pa) q = f <$> node_at g q.
Proof.
  destruct q as [r c]. unfold node_at. simpl.
  change (map (map f) (grid g)) with (fmap (M := list) (fmap (M := list) f) (grid g)).
  rewrite list_lookup_fmap.
  destruct (grid g !! r) as [cells|]; simpl; [|done].
  apply list_lookup_fmap.
Qed.

Lemma state_at_reset g q :
  state_at (reset g) q = (fun _ => EMPTY) <$> state_at g q.
Proof.
  unfold state_at, reset. rewrite node_at_map. by destruct (node_at g q).
Qed.

Lemma state_at_reset_discovered b g q :
  state_at (reset_discovered b g) q =
  (fun s => if discovered s then EMPTY else s) <$> state_at g q.
Proof.
  unfold state_at, reset_discovered. rewrite node_at_map.
  destruct (node_at g q) as [n|]; simpl; [|done].
  by destruct (discovered (Node.state n)).
Qed.

Lemma reset_is_reset g : is_reset (reset g).
Proof.
  repeat split; try reflexivity.
  intros p s. rewrite state_at_reset.
  destruct (state_at g p); simpl; congruence.
Qed.

(** A fresh graph has nothing but EMPTY cells. *)
Lemma state_at_new rows width p s :
  state_at (new rows width) p = Some s -> s = EMPTY.
Proof.
  destruct p as [r c]. unfold state_at, node_at, new. simpl.
  change (map ?f ?l) with (fmap (M := list) f l).
  rewrite list_lookup_fmap.
  destruct (seq 0 (Z.to_nat rows) !! r) as [r0|]; simpl; [|done].
  change (map ?f ?l) with (fmap (M := list) f l).
  rewrite list_lookup_fmap.
  destruct (seq 0 (Z.to_nat rows) !! c) as [c0|]; simpl; congruence.
Qed.

Lemma new_is_reset rows width : is_reset (new rows width).
Proof.
  repeat split; try reflexivity. intros p s. apply state_at_new.
Qed.

Lemma length_grid_new rows width :
  length (grid (new rows width)) = Z.to_nat rows.
Proof. unfold new. simpl. by rewrite length_map, length_seq. Qed.

Lemma touches_only_refl allowed g : touches_only allowed g g.
Proof. repeat split; auto. Qed.

Lemma touches_only_trans allowed g1 g2 g3 :
  touches_only allowed g1 g2 -> touches_only allowed g2 g3 ->
  touches_only allowed g1 g3.
Proof.
  intros (Hs & He & H) (Hs' & He' & H'). repeat split; [congruence..|].
  intros p. destruct (H' p) as [->|?]; auto.
Qed.

Lemma touches_only_set_state (allowed : State -> bool) s p g :
  allowed s = true ->
  touches_only allowed g (alter_node (Node.set_state s) p g).
Proof.
  intros Hs. repeat split; try reflexivity.
  intros q. rewrite state_at_set_state.
  destruct (decide (p = q)); [|auto].
  destruct (state_at g q); simpl; eauto.
Qed.

Lemma touches_only_set_previous allowed o p g :
  touches_only allowed g (alter_node (Node.set_previous o) p g).
Proof.
  repeat split; try reflexivity. intros q. left. apply state_at_set_previous.
Qed.

Lemma coherent_cell_invariants g : coherent g -> cell_invariants g.
Proof.
  intros (Hs & He & Hd & Hb). repeat split; auto.
  - intros p q Hp Hq. apply Hs in Hp, Hq. congruence.
  - intros p q Hp Hq. apply He in Hp, Hq. congruence.
  - by apply Hb.
  - by apply Hb.
Qed.

Lemma is_reset_coherent g : is_reset g -> coherent g.
Proof.
  intros (Hall & Hs & He & _). repeat split.
  - intros p Hp. apply Hall in Hp. discriminate.
  - intros p Hp. apply Hall in Hp. discriminate.
  - intros p q Hp. congruence.
  - congruence.
  - congruence.
Qed.

(** Coherence survives any change that designates nothing new and creates
    no START, END or BARRIER cell. *)
Lemma coherent_touches (allowed : State -> bool) g g' :
  allowed START = false -> allowed END = false -> allowed BARRIER = false ->
  touches_only allowed g g' -> coherent g -> coherent g'.
Proof.
  intros HS HE HB (Hst & Hen & H) (Hs & He & Hd & Hb).
  assert (Hkeep : forall p s, state_at g' p = Some s -> allowed s = false ->
                              state_at g p = Some s).
  { intros p s Hp Hds. destruct (H p) as [<-|(s' & Hs' & Hal)]; [done|].
    congruence. }
  repeat split.
  - intros p Hp. rewrite Hst. apply Hs. by apply Hkeep.
  - intros p Hp. rewrite Hen. apply He. by apply Hkeep.
  - intros p q. rewrite Hst, Hen. apply Hd.
  - rewrite Hst. apply (Hb p). by apply Hkeep.
  - rewrite Hen. apply (Hb p). by apply Hkeep.
Qed.

Lemma coherent_touches_discovered g g' :
  touches_only discovered g g' -> coherent g -> coherent g'.
Proof. by apply coherent_touches. Qed.

Lemma touches_only_reset_discovered b g :
  touches_only (fun s => bool_decide (s = EMPTY)) g (reset_discovered b g).
Proof.
  repeat split; try reflexivity.
  intros p. rewrite state_at_reset_discovered.
  destruct (state_at g p) as [s|]; simpl; [|auto].
  destruct (discovered s); eauto.
Qed.

Lemma coherent_reset_discovered b g :
  coherent g -> coherent (reset_discovered b g).
Proof.
  by apply (coherent_touches _ _ _ eq_refl eq_refl eq_refl
              (touches_only_reset_discovered b g)).
Qed.

Lemma coherent_set_start g p :
  coherent g -> start g = None -> end_ g <> Some p ->
  coherent (set_start p g).
Proof.
  intros (Hs & He & Hd & Hb) Hnone Hend. unfold set_start.
  repeat split; simpl.
  - intros q. unfold state_at at 1. simpl.
    change (state_at (alter_node (Node.set_state START) p g) q = Some START ->
            Some p = Some q).
    rewrite state_at_set_state. destruct (decide (p = q)) as [->|]; [done|].
    intros Hq. apply Hs in Hq. congruence.
  - intros q.
    change (state_at (alter_node (Node.set_state START) p g) q = Some END ->
            end_ g = Some q).
    rewrite state_at_set_state. destruct (decide (p = q)) as [->|]; [|apply He].
    destruct (state_at g q); simpl; congruence.
  - intros q q' [= <-] Hq'. simpl in Hq'. congruence.
  - revert H.
    change (state_at (alter_node (Node.set_state START) p g) p0 = Some BARRIER ->
            Some p <> Some p0).
    rewrite state_at_set_state. destruct (decide (p = p0)) as [->|]; [|congruence].
    destruct (state_at g p0); simpl; congruence.
  - revert H.
    change (state_at (alter_node (Node.set_state START) p g) p0 = Some BARRIER ->
            end_ g <> Some p0).
    rewrite state_at_set_state. destruct (decide (p = p0)) as [->|]; [done|].
    intros Hq. by apply Hb.
Qed.

Lemma coherent_set_end g p :
  coherent g -> end_ g = None -> start g <> Some p ->
  coherent (set_end p g).
Proof.
  intros (Hs & He & Hd & Hb) Hnone Hstart. unfold set_end.
  repeat split; simpl.
  - intros q.
    change (state_at (alter_node (Node.set_state END) p g) q = Some START ->
            start g = Some q).
    rewrite state_at_set_state. destruct (decide (p = q)) as [->|]; [|apply Hs].
    destruct (state_at g q); simpl; congruence.
  - intros q.
    change (state_at (alter_node (Node.set_state END) p g) q = Some END ->
            Some p = Some q).
    rewrite state_at_set_state. destruct (decide (p = q)) as [->|]; [done|].
    intros Hq. apply He in Hq. congruence.
  - intros q q' Hq [= <-]. simpl in Hq. congruence.
  - revert H.
    change (state_at (alter_node (Node.set_state END) p g) p0 = Some BARRIER ->
            start g <> Some p0).
    rewrite state_at_set_state. destruct (decide (p = p0)) as [->|]; [done|].
    intros Hq. by apply Hb.
  - revert H.
    change (state_at (alter_node (Node.set_state END) p g) p0 = Some BARRIER ->
            Some p <> Some p0).
    rewrite state_at_set_state. destruct (decide (p = p0)) as [->|]; [|congruence].
    destruct (state_at g p0); simpl; congruence.
Qed.

Lemma coherent_set_barrier g p :
  coherent g -> start g <> Some p -> end_ g <> Some p ->
  coherent (alter_node Node.set_barrier p g).
Proof.
  intros (Hs & He & Hd & Hb) Hstart Hend.
  unfold Node.set_barrier. repeat split; simpl.
  - intros q. rewrite state_at_set_state.
    destruct (decide (p = q)) as [->|]; [|apply Hs].
    destruct (state_at g q); simpl; congruence.
  - intros q. rewrite state_at_set_state.
    destruct (decide (p = q)) as [->|]; [|apply He].
    destruct (state_at g q); simpl; congruence.
  - apply Hd.
  - revert H. rewrite state_at_set_state.
    destruct (decide (p = p0)) as [->|]; [done|]. intros Hq. by apply Hb.
  - revert H. rewrite state_at_set_state.
    destruct (decide (p = p0)) as [->|]; [done|]. intros Hq. by apply Hb.
Qed.

Lemma coherent_clear_start g :
  coherent g -> (forall q, state_at g q <> Some START) ->
  coherent (clear_start g).
Proof.
  intros (Hs & He & Hd & Hb) Hno. repeat split; simpl.
  - intros q Hq. by apply Hno in Hq.
  - apply He.
  - intros q q' Hq. discriminate.
  - discriminate.
  - by apply Hb.
Qed.

Lemma coherent_clear_end g :
  coherent g -> (forall q, state_at g q <> Some END) ->
  coherent (clear_end g).
Proof.
  intros (Hs & He & Hd & Hb) Hno. repeat split; simpl.
  - apply Hs.
  - intros q Hq. by apply Hno in Hq.
  - intros q q' _ Hq. discriminate.
  - by apply Hb.
  - discriminate.
Qed.

Lemma coherent_maze_of_reset g g' :
  is_reset g -> touches_only maze_state g g' -> coherent g'.
Proof.
  intros (Hall & Hs & He & _) (Hst & Hen & H).
  assert (Hno : forall p s, state_at g' p = Some s -> maze_state s = true).
  { intros p s Hp. destruct (H p) as [Heq|(s' & Hs' & Hal)].
    - rewrite Heq in Hp. by rewrite (Hall _ _ Hp).
    - congruence. }
  repeat split.
  - intros p Hp. by apply Hno in Hp.
  - intros p Hp. by apply Hno in Hp.
  - intros p q Hp. congruence.
  - congruence.
  - congruence.
Qed.

End GraphFacts.

(** ** The clicked cell *)

Section Clicks.

Import Graph GUI.

Lemma py_getitem_Some {A} (l : list A) i j a :
  py_getitem l i = Some (j, a) -> l !! j = Some a.
Proof.
  unfold py_getitem.
  destruct (_ && _); [|discriminate].
  destruct (l !! Z.to_nat _) eqn:E; simpl; [|discriminate].
  intros [= <- <-]. exact E.
Qed.

Lemma py_getitem_inside {A} (l : list A) i a :
  0 <= i -> l !! Z.to_nat i = Some a ->
  py_getitem l i = Some (Z.to_nat i, a).
Proof.
  intros Hi Ha. unfold py_getitem.
  pose proof (lookup_lt_Some _ _ _ Ha) as Hlt.
  destruct (Z.ltb_spec i 0); [lia|].
  destruct (Z.leb_spec 0 i); [|lia].
  destruct (Z.ltb_spec i (Z.of_nat (length l))); [|lia].
  simpl. by rewrite Ha.
Qed.

Lemma py_getitem_beyond {A} (l : list A) i :
  Z.of_nat (length l) <= i -> py_getitem l i = None.
Proof.
  intros Hi. unfold py_getitem.
  destruct (Z.ltb_spec i 0); [lia|].
  destruct (Z.ltb_spec i (Z.of_nat (length l))); [lia|].
  by rewrite andb_false_r.
Qed.

(** The position [get_click_pos] computes. *)
Lemma get_click_pos_run x y s :
  get_click_pos (x, y) s =
  if vertex_width s =? 0 then mkRun (inl ZeroDivisionError) s []
  else mkRun (inr (y / vertex_width s, x / vertex_width s)) s [].
Proof.
  unfold get_click_pos, bind, get, raise, ret. simpl.
  by destruct (vertex_width s =? 0).
Qed.

(** Finding the clicked cell changes nothing and calls nothing; the cell
    it yields is the cell of the grid at the position it yields. *)
Lemma clicked_node_run m s :
  exists v, clicked_node m s = mkRun v s [] /\
            forall p n, v = inr (p, n) -> node_at (graph s) p = Some n.
Proof.
  unfold clicked_node. destruct (get_pos m) as [x y].
  unfold bind at 1. rewrite get_click_pos_run.
  destruct (vertex_width s =? 0); simpl.
  { eexists. split; [reflexivity|]. intros; discriminate. }
  unfold grid_getitem, bind, get, raise, ret. simpl.
  destruct (py_getitem (grid (graph s)) _) as [[r cells]|] eqn:Er; simpl.
  2:{ eexists. split; [reflexivity|]. intros; discriminate. }
  destruct (py_getitem cells _) as [[c node]|] eqn:Ec; simpl.
  2:{ eexists. split; [reflexivity|]. intros; discriminate. }
  eexists. split; [reflexivity|].
  intros p n [= <- <-]. unfold node_at. simpl.
  apply py_getitem_Some in Er, Ec. by rewrite Er.
Qed.

End Clicks.

(** ** Runs of the handler, branch by branch *)

Section Runs.

Import Graph GUI.
Context {alg : Graph.Algorithms}.

Lemma bind_pure {A B} (m : M A) (k : A -> M B) s a :
  m s = mkRun (inr a) s [] -> bind m k s = k a s.
Proof. intros H. unfold bind. rewrite H. simpl. by destruct (k a s). Qed.

Lemma bind_raises {A B} (m : M A) (k : A -> M B) s e :
  m s = mkRun (inl e) s [] -> bind m k s = mkRun (inl e) s [].
Proof. intros H. unfold bind. by rewrite H. Qed.

Lemma node_ne_true p o : node_ne p o = true <-> o <> Some p.
Proof.
  destruct o as [q|]; simpl; [|split; congruence].
  rewrite negb_true_iff, bool_decide_eq_false. split; congruence.
Qed.

Lemma node_ne_false p o : node_ne p o = false <-> o = Some p.
Proof.
  destruct o as [q|]; simpl; [|split; congruence].
  rewrite negb_false_iff, bool_decide_eq_true. split; congruence.
Qed.

Lemma truthy_false o : truthy o = false <-> o = None.
Proof. destruct o; simpl; split; congruence. Qed.

Lemma truthy_true o : truthy o = true <-> o <> None.
Proof. destruct o; simpl; split; congruence. Qed.

Lemma state_is_true s n : state_is s n = true <-> Node.state n = s.
Proof. apply bool_decide_eq_true. Qed.

Lemma state_is_false s n : state_is s n = false <-> Node.state n <> s.
Proof. apply bool_decide_eq_false. Qed.

(** A pointer over a cell finds that cell. *)
Lemma clicked_node_points_at s m p :
  points_at s m p ->
  exists n, node_at (graph s) p = Some n /\
            clicked_node m s = mkRun (inr (p, n)) s [].
Proof.
  unfold points_at. destruct (get_pos m) as [x y] eqn:Hm. simpl.
  intros (Hw & Hr & Hc & -> & [n Hn]). exists n. split; [done|].
  unfold clicked_node. rewrite Hm.
  erewrite bind_pure; last first.
  { rewrite get_click_pos_run. apply Z.eqb_neq in Hw. by rewrite Hw. }
  simpl. unfold grid_getitem, bind, get, raise, ret. simpl.
  unfold node_at in Hn. simpl in Hn.
  destruct (grid (graph s) !! Z.to_nat (y / vertex_width s)) as [cells|] eqn:E;
    [|discriminate].
  simpl in Hn.
  rewrite (py_getitem_inside _ _ cells) by done. simpl.
  by rewrite (py_getitem_inside _ _ n).
Qed.

(** A pointer beyond the grid makes the subscript raise. *)
Lemma clicked_node_points_beyond s m :
  points_beyond s m -> clicked_node m s = mkRun (inl IndexError) s [].
Proof.
  unfold points_beyond. destruct (get_pos m) as [x y] eqn:Hm. simpl.
  intros (Hw & H).
  unfold clicked_node. rewrite Hm.
  erewrite bind_pure; last first.
  { rewrite get_click_pos_run. apply Z.eqb_neq in Hw. by rewrite Hw. }
  simpl. unfold grid_getitem, bind, get, raise, ret. simpl.
  destruct H as [H|(cells & Hr & Hcells & H)].
  - by rewrite py_getitem_beyond.
  - rewrite (py_getitem_inside _ _ cells) by done. simpl.
    by rewrite py_getitem_beyond.
Qed.

Lemma left_click_run m s p n :
  clicked_node m s = mkRun (inr (p, n)) s [] ->
  left_click m s =
  let g := graph s in
  if negb (truthy (start g)) && node_ne p (end_ g) then
    mkRun (inr tt) (with_graph (set_start p g) s) [Set_start p]
  else if node_ne p (end_ g) && node_ne p (start g) && negb (paths g) then
    mkRun (inr tt) (with_graph (alter_node Node.set_barrier p g) s)
          [Set_barrier p]
  else mkRun (inr tt) s [].
Proof.
  intros H. unfold left_click. rewrite (bind_pure _ _ _ _ H). simpl.
  unfold bind, get. simpl.
  destruct (negb (truthy _) && _); [reflexivity|].
  destruct (_ && _ && _); reflexivity.
Qed.

Lemma middle_click_run m s p n :
  clicked_node m s = mkRun (inr (p, n)) s [] ->
  middle_click m s =
  let g := graph s in
  if negb (truthy (end_ g)) && node_ne p (start g)
     && negb (state_is BARRIER n) then
    if paths g then
      mkRun (inr tt) (with_graph (mark_path false (set_end p g)) s)
            [Set_end p; Mark_path false]
    else mkRun (inr tt) (with_graph (set_end p g) s) [Set_end p]
  else mkRun (inr tt) s [].
Proof.
  intros H. unfold middle_click. rewrite (bind_pure _ _ _ _ H). simpl.
  unfold bind, get. simpl.
  destruct (_ && _ && _); [|reflexivity].
  simpl. destruct (paths (graph s)); reflexivity.
Qed.

Lemma right_click_run m s p n :
  clicked_node m s = mkRun (inr (p, n)) s [] ->
  right_click m s =
  let g := graph s in
  if state_is END n
     || (negb (paths g) && state_is BARRIER n)
     || (negb (paths g) && state_is START n) then
    let g1 := alter_node Node.reset p g in
    if node_eq p (start g) then
      mkRun (inr tt) (with_graph (clear_start g1) s)
            [Node_reset p; Clear_start]
    else if node_eq p (end_ g) then
      if paths g then
        mkRun (inr tt)
              (with_graph
                 (clear_end (alter_node Node.set_closed p (mark_path true g1)))
                 s)
              [Node_reset p; Mark_path true; Set_closed p; Clear_end]
      else
        mkRun (inr tt) (with_graph (clear_end g1) s) [Node_reset p; Clear_end]
    else mkRun (inr tt) (with_graph g1 s) [Node_reset p]
  else mkRun (inr tt) s [].
Proof.
  intros H. unfold right_click. rewrite (bind_pure _ _ _ _ H). simpl.
  unfold bind, get. simpl.
  destruct (_ || _ || _); [|reflexivity].
  simpl. destruct (node_eq p (start (graph s))); [reflexivity|].
  destruct (node_eq p (end_ (graph s))); [|reflexivity].
  simpl. destruct (paths (graph s)); reflexivity.
Qed.

Lemma key_press_run key s :
  key_press key s =
  let g := graph s in
  let marked g' := if truthy (end_ g') then mark_path false g' else g' in
  let marks g' := if truthy (end_ g') then [Mark_path false] else [] in
  if key =? K_ESCAPE then
    mkRun (inr tt) (with_graph (reset g) s) [Graph_reset]
  else if key =? K_c then
    mkRun (inr tt) (with_graph (reset_discovered clears_paths g) s)
          [Reset_discovered]
  else if truthy (start g) && truthy (end_ g) && (key =? K_a) then
    mkRun (inr tt) (with_graph (marked (a_star g)) s)
          (A_star :: marks (a_star g))
  else if truthy (start g) && (key =? K_d) then
    mkRun (inr tt) (with_graph (marked (dijkstra g)) s)
          (Dijkstra :: marks (dijkstra g))
  else if key =? K_m then
    mkRun (inr tt) (with_graph (generate_maze (reset g)) s)
          [Graph_reset; Generate_maze]
  else mkRun (inr tt) s [].
Proof.
  unfold key_press, bind, get. simpl.
  destruct (key =? K_ESCAPE); [reflexivity|].
  destruct (key =? K_c); [reflexivity|].
  destruct (_ && _ && _).
  { simpl. destruct (truthy (end_ (a_star (graph s)))); reflexivity. }
  destruct (_ && _).
  { simpl. destruct (truthy (end_ (dijkstra (graph s)))); reflexivity. }
  destruct (key =? K_m); reflexivity.
Qed.

End Runs.

(** ** The handler keeps the graph coherent *)

Section Coherence.

Import Graph GUI.
Context {alg : Graph.Algorithms} {frame : Graph.Frame alg}.

Lemma coherent_left_click m s :
  coherent (graph s) -> coherent (graph (final (left_click m s))).
Proof.
  intros Hco. destruct (clicked_node_run m s) as ([e|[p n]] & Hrun & Hn).
  { unfold left_click. by rewrite (bind_raises _ _ _ _ Hrun). }
  rewrite (left_click_run _ _ _ _ Hrun). simpl.
  destruct (negb (truthy (start (graph s))) && node_ne p (end_ (graph s)))
    eqn:E1.
  { apply andb_true_iff in E1 as [E1 E2].
    apply negb_true_iff, truthy_false in E1. apply node_ne_true in E2.
    simpl. by apply coherent_set_start. }
  destruct (node_ne p (end_ (graph s)) && node_ne p (start (graph s))
            && negb (paths (graph s))) eqn:E2; [|done].
  apply andb_true_iff in E2 as [E2 _]. apply andb_true_iff in E2 as [E2 E3].
  apply node_ne_true in E2, E3. simpl. by apply coherent_set_barrier.
Qed.

Lemma coherent_middle_click m s :
  coherent (graph s) -> coherent (graph (final (middle_click m s))).
Proof.
  intros Hco. destruct (clicked_node_run m s) as ([e|[p n]] & Hrun & Hn).
  { unfold middle_click. by rewrite (bind_raises _ _ _ _ Hrun). }
  rewrite (middle_click_run _ _ _ _ Hrun). simpl.
  destruct (negb (truthy (end_ (graph s))) && node_ne p (start (graph s))
            && negb (state_is BARRIER n)) eqn:E; [|done].
  apply andb_true_iff in E as [E _]. apply andb_true_iff in E as [E1 E2].
  apply negb_true_iff, truthy_false in E1. apply node_ne_true in E2.
  assert (coherent (set_end p (graph s))) by by apply coherent_set_end.
  destruct (paths (graph s)); simpl; [|done].
  eapply coherent_touches_discovered; [apply mark_path_frame|done].
Qed.

Lemma coherent_right_click m s :
  coherent (graph s) -> coherent (graph (final (right_click m s))).
Proof.
  intros Hco. destruct (clicked_node_run m s) as ([e|[p n]] & Hrun & Hn).
  { unfold right_click. by rewrite (bind_raises _ _ _ _ Hrun). }
  specialize (Hn p n eq_refl).
  rewrite (right_click_run _ _ _ _ Hrun). simpl.
  destruct (state_is END n || negb (paths (graph s)) && state_is BARRIER n
            || negb (paths (graph s)) && state_is START n) eqn:E; [|done].
  set (g1 := alter_node Node.reset p (graph s)).
  assert (Hg1 : touches_only (fun s => bool_decide (s = EMPTY)) (graph s) g1).
  { by apply (touches_only_set_state _ EMPTY). }
  assert (Hco1 : coherent g1)
    by by apply (coherent_touches _ _ _ eq_refl eq_refl eq_refl Hg1).
  assert (Hp1 : state_at g1 p = Some EMPTY).
  { unfold g1, Node.reset. rewrite state_at_set_state, decide_True by done.
    unfold state_at. by rewrite Hn. }
  assert (Hother : forall q, q <> p -> state_at g1 q = state_at (graph s) q).
  { intros q Hq. unfold g1, Node.reset.
    by rewrite state_at_set_state, decide_False by congruence. }
  destruct Hco as (Hs & He & Hd & Hb).
  destruct (node_eq p (start (graph s))) eqn:E1; simpl.
  { apply negb_true_iff, node_ne_false in E1.
    apply coherent_clear_start; [done|]. intros q Hq.
    destruct (decide (q = p)) as [->|Hne]; [congruence|].
    rewrite Hother in Hq by done. apply Hs in Hq. congruence. }
  destruct (node_eq p (end_ (graph s))) eqn:E2; simpl; [|done].
  apply negb_true_iff, node_ne_false in E2.
  destruct (paths (graph s)); simpl.
  - pose proof (mark_path_frame true g1) as Hmp.
    set (g2 := mark_path true g1) in *.
    assert (Hco2 : coherent g2) by by eapply coherent_touches_discovered.
    assert (Hg3 : touches_only discovered g2 (alter_node Node.set_closed p g2)).
    { by apply (touches_only_set_state _ CLOSED). }
    apply coherent_clear_end; [by eapply coherent_touches_discovered|].
    intros q. unfold Node.set_closed. rewrite state_at_set_state.
    destruct (decide (p = q)) as [<-|Hne].
    { destruct (state_at g2 p); simpl; congruence. }
    intros Hq. destruct Hmp as (_ & _ & Hmp).
    destruct (Hmp q) as [Heq|(s' & Hs' & Hal)].
    + rewrite Heq, Hother in Hq by done. apply He in Hq. congruence.
    + rewrite Hs' in Hq. injection Hq as ->. discriminate.
  - apply coherent_clear_end; [done|]. intros q Hq.
    destruct (decide (q = p)) as [->|Hne]; [congruence|].
    rewrite Hother in Hq by done. apply He in Hq. congruence.
Qed.

Lemma coherent_key_press key s :
  coherent (graph s) -> coherent (graph (final (key_press key s))).
Proof.
  intros Hco. rewrite key_press_run. simpl.
  destruct (key =? K_ESCAPE); simpl.
  { apply is_reset_coherent, reset_is_reset. }
  destruct (key =? K_c); simpl.
  { by apply coherent_reset_discovered. }
  destruct (_ && _ && _); simpl.
  { pose proof (a_star_frame (graph s)) as Hf.
    assert (coherent (a_star (graph s)))
      by by eapply coherent_touches_discovered.
    destruct (truthy _); [|done].
    eapply coherent_touches_discovered; [apply mark_path_frame|done]. }
  destruct (_ && _); simpl.
  { pose proof (dijkstra_frame (graph s)) as Hf.
    assert (coherent (dijkstra (graph s)))
      by by eapply coherent_touches_discovered.
    destruct (truthy _); [|done].
    eapply coherent_touches_discovered; [apply mark_path_frame|done]. }
  destruct (key =? K_m); simpl; [|done].
  eapply coherent_maze_of_reset;
    [apply reset_is_reset|apply generate_maze_frame].
Qed.

Lemma coherent_handle_event ev m s :
  coherent (graph s) -> coherent (graph (final (handle_event ev m s))).
Proof.
  intros Hco. unfold handle_event.
  destruct (pressed 0 m); [by apply coherent_left_click|].
  destruct (pressed 1 m); [by apply coherent_middle_click|].
  destruct (pressed 2 m); [by apply coherent_right_click|].
  destruct ev; try done. by apply coherent_key_press.
Qed.

Lemma coherent_handle_events queue s :
  coherent (graph s) -> coherent (graph (final (handle_events queue s))).
Proof.
  revert s. induction queue as [|[ev m] queue IH]; intros s Hco; [done|].
  assert (Hstep : coherent
            (graph (final (bind (handle_event ev m)
                                (fun _ => handle_events queue) s)))).
  { unfold bind.
    pose proof (coherent_handle_event ev m s Hco) as H1.
    destruct (value (handle_event ev m s)); simpl; [done|].
    by apply IH. }
  destruct ev; simpl; done.
Qed.

End Coherence.

(** ** The algorithms after the spec meet the frame conditions *)

Section ModelFrame.

Import Graph.

Lemma touches_only_walk fuel mark cur g :
  mark = Node.set_path \/ mark = Node.set_closed ->
  touches_only discovered g (Model.walk fuel mark cur g).
Proof.
  intros Hmark. revert cur g.
  induction fuel as [|fuel IH]; intros cur g; simpl.
  { apply touches_only_refl. }
  destruct cur as [p|]; [|apply touches_only_refl].
  destruct (bool_decide (start g = Some p)); [apply touches_only_refl|].
  eapply touches_only_trans; [|apply IH].
  destruct Hmark as [-> | ->]; by apply touches_only_set_state.
Qed.

Lemma touches_only_mark_path flag g :
  touches_only discovered g (Model.mark_path flag g).
Proof.
  unfold Model.mark_path.
  destruct (end_ g); [|apply touches_only_refl].
  apply touches_only_walk. destruct flag; auto.
Qed.

Lemma touches_only_relax h cur st nb :
  touches_only discovered (Model.now st) (Model.now (Model.relax h cur st nb)).
Proof.
  unfold Model.relax.
  destruct (_ || _); [apply touches_only_refl|].
  destruct (Model.in_open nb (Model.open_set st)); simpl.
  { apply touches_only_set_previous. }
  destruct (bool_decide _); [apply touches_only_set_previous|].
  eapply touches_only_trans; [apply touches_only_set_previous|].
  by apply touches_only_set_state.
Qed.

Lemma touches_only_relax_all h cur nbs st :
  touches_only discovered (Model.now st)
               (Model.now (fold_left (Model.relax h cur) nbs st)).
Proof.
  revert st. induction nbs as [|nb nbs IH]; intros st; simpl.
  { apply touches_only_refl. }
  eapply touches_only_trans; [apply touches_only_relax|apply IH].
Qed.

Lemma touches_only_expand steps h st :
  touches_only discovered (Model.now st) (Model.expand steps h st).
Proof.
  revert st. induction steps as [|n IH]; intros st; simpl.
  { apply touches_only_refl. }
  destruct (Model.pop_min (Model.open_set st)) as [[[[f c] cur] rest]|];
    [|apply touches_only_refl].
  destruct (bool_decide (end_ (Model.now st) = Some cur)).
  { repeat split; auto. }
  eapply touches_only_trans; [|apply IH]. simpl.
  set (st1 := fold_left _ _ _).
  assert (H1 : touches_only discovered (Model.now st) (Model.now st1))
    by apply (touches_only_relax_all h cur _ (Model.mkSearch _ _ _ _)).
  destruct (bool_decide _); [done|].
  eapply touches_only_trans; [exact H1|].
  by apply touches_only_set_state.
Qed.

Lemma touches_only_search steps h g :
  touches_only discovered g (Model.search steps h g).
Proof.
  unfold Model.search. destruct (start g); [|apply touches_only_refl].
  apply (touches_only_expand steps h (Model.mkSearch _ _ _ _)).
Qed.

Lemma node_at_generate_maze bits g p :
  node_at (Model.generate_maze bits g) p =
  (fun n => if negb (Model.keeps_free g p) &&
               default false (bits !! (fst p * length (grid g) + snd p)%nat)
            then Node.set_barrier n else n) <$> node_at g p.
Proof.
  destruct p as [r c]. unfold node_at, Model.generate_maze. simpl.
  rewrite list_lookup_imap.
  destruct (grid g !! r) as [cells|]; simpl; [|done].
  unfold Model.maze_row. by rewrite list_lookup_imap.
Qed.

Lemma touches_only_generate_maze bits g :
  touches_only maze_state g (Model.generate_maze bits g).
Proof.
  repeat split; try reflexivity.
  intros p. unfold state_at. rewrite node_at_generate_maze.
  destruct (node_at g p) as [n|]; simpl; [|auto].
  destruct (_ && _); simpl; eauto.
Qed.

Lemma model_frame steps bits policy :
  Frame (Model.algorithms steps bits policy).
Proof.
  split; simpl.
  - intros g. unfold Model.a_star.
    destruct (end_ g); [apply touches_only_search|apply touches_only_refl].
  - intros g. apply touches_only_search.
  - apply touches_only_mark_path.
  - apply touches_only_generate_maze.
Qed.

End ModelFrame.

(** ** Rounding *)

Section Rounding.

Lemma round_half_even_exact k b : b <> 0 -> round_half_even (k * b) b = k.
Proof.
  intros Hb. unfold round_half_even.
  assert (Hn : (if b <? 0 then - (k * b) else k * b) = k * Z.abs b).
  { destruct (Z.ltb_spec b 0); lia. }
  rewrite Hn, Z.div_mul, Z.mod_mul by lia.
  destruct (Z.ltb_spec (2 * 0) (Z.abs b)); [done|lia].
Qed.

Lemma round_half_even_small a b :
  0 < b -> 0 <= 2 * a <= b -> round_half_even a b = 0.
Proof.
  intros Hb Ha. unfold round_half_even.
  destruct (Z.ltb_spec b 0); [lia|].
  rewrite Z.abs_eq by lia.
  assert (Hq : a / b = 0) by (apply Z.div_small; lia).
  assert (Hr : a mod b = a) by (apply Z.mod_small; lia).
  rewrite Hq, Hr.
  destruct (Z.ltb_spec (2 * a) b); [done|].
  destruct (Z.ltb_spec b (2 * a)); [lia|done].
Qed.

Lemma even_succ_of_odd q : Z.even q = false -> Z.even (q + 1) = true.
Proof.
  intros Hq. rewrite Z.add_1_r, Z.even_succ, <- Z.negb_even, Hq. reflexivity.
Qed.

Lemma even_not_consecutive r : Z.even r = true -> Z.even (r + 1) = true -> False.
Proof.
  intros Hr. rewrite Z.add_1_r, Z.even_succ, <- Z.negb_even, Hr. discriminate.
Qed.

(** [round_half_even n d] is a nearest integer to [n / d], and the even one
    of the two when [n / d] lies halfway. *)
Lemma round_half_even_spec n d :
  0 < d ->
  - d <= 2 * n - 2 * round_half_even n d * d <= d /\
  (Z.abs (2 * n - 2 * round_half_even n d * d) = d ->
   Z.even (round_half_even n d) = true).
Proof.
  intros Hd. unfold round_half_even.
  destruct (Z.ltb_spec d 0); [lia|]. rewrite Z.abs_eq by lia. cbv zeta.
  pose proof (Z.div_mod n d ltac:(lia)) as Hdm.
  pose proof (Z.mod_pos_bound n d Hd) as Hb.
  set (q := n / d) in *. set (m := n mod d) in *.
  destruct (Z.ltb_spec (2 * m) d).
  { split; [nia|]. intros Habs. exfalso. nia. }
  destruct (Z.ltb_spec d (2 * m)).
  { split; [nia|]. intros Habs. exfalso. nia. }
  destruct (Z.even q) eqn:Hq.
  - split; [nia|done].
  - split; [nia|]. intros _. by apply even_succ_of_odd.
Qed.

Lemma round_half_even_unique n d r :
  0 < d ->
  - d <= 2 * n - 2 * r * d <= d ->
  (Z.abs (2 * n - 2 * r * d) = d -> Z.even r = true) ->
  r = round_half_even n d.
Proof.
  intros Hd Hr Heven.
  destruct (round_half_even_spec n d Hd) as [Hr0 Heven0].
  set (r0 := round_half_even n d) in *.
  assert (Hnear : r = r0 \/ r = r0 + 1 \/ r0 = r + 1) by nia.
  destruct Hnear as [?|[->| ->]]; [done| |]; exfalso.
  - apply (even_not_consecutive r0); [apply Heven0|apply Heven]; nia.
  - apply (even_not_consecutive r); [apply Heven|apply Heven0]; nia.
Qed.

Lemma round_half_even_opp n d :
  0 < d -> round_half_even (- n) d = - round_half_even n d.
Proof.
  intros Hd. symmetry. apply round_half_even_unique; [done| |].
  - destruct (round_half_even_spec n d Hd) as [? _]. lia.
  - destruct (round_half_even_spec n d Hd) as [_ Heven].
    intros Habs. rewrite Z.even_opp. apply Heven. lia.
Qed.

Lemma round_half_even_opp_r n d :
  0 < d -> round_half_even n (- d) = - round_half_even n d.
Proof.
  intros Hd. rewrite <- round_half_even_opp by done.
  unfold round_half_even.
  destruct (Z.ltb_spec (- d) 0); [|lia]. destruct (Z.ltb_spec d 0); [lia|].
  by rewrite Z.abs_opp.
Qed.

Lemma round_half_even_negative n d :
  d < 0 -> round_half_even n d = - round_half_even n (- d).
Proof.
  intros Hd. rewrite <- (Z.opp_involutive d) at 1.
  apply round_half_even_opp_r. lia.
Qed.

Lemma round_half_even_0 d : d <> 0 -> round_half_even 0 d = 0.
Proof.
  intros Hd. destruct (Z.lt_total d 0) as [Hd0|[->|Hd0]]; [|done|].
  - rewrite <- (Z.opp_involutive d), round_half_even_opp_r by lia.
    rewrite round_half_even_small; lia.
  - apply round_half_even_small; lia.
Qed.

(** Rounding to a multiple of [1 / p] first does not change the integer
    found, as long as [p] is even and larger than the divisor. *)
Lemma round_half_even_twice n d p :
  0 < d < p -> Z.even p = true ->
  round_half_even (round_half_even (n * p) d) p = round_half_even n d.
Proof.
  intros [Hd Hp] Hpe. symmetry.
  destruct (round_half_even_spec n d Hd) as [Hr Hre].
  destruct (round_half_even_spec (n * p) d Hd) as [Hm _].
  set (r := round_half_even n d) in *.
  set (m := round_half_even (n * p) d) in *.
  apply Z.even_spec in Hpe as [h ->].
  assert (Hnear : - h <= m - 2 * r * h <= h) by nia.
  apply round_half_even_unique; [lia|nia|].
  intros Habs. apply Hre.
  assert (Hu : m - 2 * r * h = h \/ m - 2 * r * h = - h) by lia.
  destruct Hu as [Hu|Hu].
  - assert (Hm' : m = 2 * r * h + h) by lia.
    assert (2 * n - 2 * r * d = d); [|lia].
    assert (0 <= (2 * r * d + d - 2 * n) * (2 * h) <= d) by nia.
    nia.
  - assert (Hm' : m = 2 * r * h - h) by lia.
    assert (2 * n - 2 * r * d = - d); [|lia].
    assert (0 <= (2 * n - 2 * r * d + d) * (2 * h) <= d) by nia.
    nia.
Qed.

Lemma float_limit_large : 2 ^ 52 < float_limit.
Proof. apply Z.ltb_lt. vm_compute. reflexivity. Qed.

(** The exponent [k] the small quotients are scaled by. *)
Lemma scale_spec n d :
  0 < d -> 0 < n < 2 ^ 52 * d ->
  let k := Z.log2_up ((2 ^ 52 * d + n - 1) / n) in
  0 < k /\ 2 ^ 52 * d <= n * 2 ^ k.
Proof.
  intros Hd Hn. cbv zeta.
  set (c := (2 ^ 52 * d + n - 1) / n).
  pose proof (Z.div_mod (2 ^ 52 * d + n - 1) n ltac:(lia)) as Hdm.
  pose proof (Z.mod_pos_bound (2 ^ 52 * d + n - 1) n ltac:(lia)) as Hb.
  fold c in Hdm.
  assert (Hc : 1 < c) by nia.
  split; [by apply Z.log2_up_pos|].
  pose proof (Z.log2_up_spec c Hc) as [_ Hup]. nia.
Qed.

(** Up to [2^52] the float keeps enough of the quotient: [round] finds
    the integer nearest to the exact quotient. *)
Lemma round_float_quotient_exact n d :
  0 <= n < 2 ^ 52 -> 0 < d ->
  round_float_quotient n d = round_half_even n d.
Proof.
  intros Hn Hd. unfold round_float_quotient.
  destruct (Z.leb_spec (2 ^ 52 * d) n); [nia|].
  destruct (Z.eqb_spec n 0) as [->|Hn0].
  { symmetry. apply round_half_even_small; lia. }
  destruct (scale_spec n d Hd ltac:(lia)) as [Hk Hscale]. cbv zeta in *.
  set (k := Z.log2_up _) in *.
  apply round_half_even_twice; [|by rewrite Z.even_pow].
  split; [done|]. nia.
Qed.

Lemma py_round_div_exact a b :
  b <> 0 -> Z.abs a < 2 ^ 52 ->
  py_round_div a b = inr (round_half_even a b).
Proof.
  intros Hb Ha. unfold py_round_div.
  destruct (Z.eqb_spec b 0); [done|].
  pose proof float_limit_large as Hlimit.
  destruct (Z.leb_spec (float_limit * Z.abs b) (Z.abs a)) as [Hover|_].
  { assert (float_limit * 1 <= float_limit * Z.abs b); [|lia].
    apply Z.mul_le_mono_nonneg_l; lia. }
  f_equal. rewrite round_float_quotient_exact by lia.
  destruct (Z.lt_total a 0) as [Ha0|[->|Ha0]],
           (Z.lt_total b 0) as [Hb0|[->|Hb0]]; try done.
  - rewrite Z.sgn_neg, Z.sgn_neg, Z.abs_neq, Z.abs_neq by lia.
    rewrite <- (Z.opp_involutive b) at 2.
    rewrite (round_half_even_opp_r a (- b)), (round_half_even_opp a (- b))
      by lia.
    lia.
  - rewrite Z.sgn_neg, Z.sgn_pos, Z.abs_neq, Z.abs_eq by lia.
    rewrite round_half_even_opp by lia. lia.
  - rewrite !round_half_even_0 by lia. reflexivity.
  - rewrite !round_half_even_0 by lia. reflexivity.
  - rewrite Z.sgn_pos, Z.sgn_neg, Z.abs_eq, Z.abs_neq by lia.
    rewrite <- (Z.opp_involutive b) at 2.
    rewrite (round_half_even_opp_r a (- b)) by lia. lia.
  - rewrite Z.sgn_pos, Z.sgn_pos, Z.abs_eq, Z.abs_eq by lia. lia.
Qed.

(** A quotient of at most one half rounds to 0, whatever the sizes. *)
Lemma py_round_div_small n d :
  0 < d -> 0 <= 2 * n <= d -> py_round_div n d = inr 0.
Proof.
  intros Hd Hn. unfold py_round_div.
  destruct (Z.eqb_spec d 0); [lia|].
  pose proof float_limit_large as Hlimit.
  destruct (Z.leb_spec (float_limit * Z.abs d) (Z.abs n)) as [Hover|_].
  { assert (1 * Z.abs d <= float_limit * Z.abs d); [|lia].
    apply Z.mul_le_mono_nonneg_r; lia. }
  f_equal. rewrite !Z.abs_eq by lia.
  enough (round_float_quotient n d = 0) as -> by lia.
  unfold round_float_quotient.
  destruct (Z.leb_spec (2 ^ 52 * d) n); [nia|].
  destruct (Z.eqb_spec n 0) as [|Hn0]; [done|].
  destruct (scale_spec n d Hd ltac:(lia)) as [Hk _]. cbv zeta in *.
  set (k := Z.log2_up _) in *.
  destruct (round_half_even_spec (n * 2 ^ k) d Hd) as [Hm _].
  set (m := round_half_even (n * 2 ^ k) d) in *.
  assert (Hpow : 2 ^ k = 2 * 2 ^ (k - 1)).
  { rewrite <- Z.pow_succ_r by lia. f_equal. lia. }
  assert (0 < 2 ^ (k - 1)) by (apply Z.pow_pos_nonneg; lia).
  apply round_half_even_small; [lia|]. nia.
Qed.

End Rounding.

(** ** The constructor *)

Section Constructor.

Import Graph GUI.

Lemma round_half_even_2 n :
  -1 <= 2 * round_half_even n 2 - n <= 1 /\
  (Z.even n = true -> 2 * round_half_even n 2 = n) /\
  (Z.odd n = true -> Z.even (round_half_even n 2) = true).
Proof.
  destruct (round_half_even_spec n 2 ltac:(lia)) as [Hnear Heven].
  set (r := round_half_even n 2) in *.
  split; [lia|]. split.
  - intros Hn. apply Z.even_spec in Hn as [h ->]. lia.
  - intros Hn. apply Z.odd_spec in Hn as [h ->]. apply Heven. lia.
Qed.

(** What the constructor has stored when it returns. *)
Lemma init_returns {display : Display} rows width s :
  init rows width = inr s ->
  py_round_div rows 2 = inr (GUI.rows s) /\
  (exists cells,
     py_round_div width rows = inr cells /\ vertex_width s = 2 * cells) /\
  columns s = rows /\
  GUI.width s = width /\
  graph s = Graph.new (GUI.rows s) (vertex_width s) /\
  set_mode width = None.
Proof.
  unfold init. intros Hinit.
  destruct (py_round_div rows 2) as [|self_rows]; [discriminate|].
  destruct (py_round_div width rows) as [|cells]; [discriminate|].
  destruct (set_mode width) eqn:Hmode; [discriminate|].
  injection Hinit as <-. simpl. eauto 10.
Qed.

(** For sizes below [2^52] the stored sizes are the exact quotients,
    rounded. *)
Lemma init_exact {display : Display} rows width s :
  rows <> 0 -> Z.abs rows < 2 ^ 52 -> Z.abs width < 2 ^ 52 ->
  init rows width = inr s ->
  s = mk (round_half_even rows 2) rows width (2 * round_half_even width rows)
         (Graph.new (round_half_even rows 2)
                    (2 * round_half_even width rows)).
Proof.
  intros Hrows Hsmall Hwidth Hinit.
  destruct (init_returns rows width s Hinit)
    as (Hr & (cells & Hc & Hv) & Hcolumns & Hw & Hg & _).
  rewrite py_round_div_exact in Hr, Hc by (done || lia).
  injection Hr as Hr. injection Hc as Hc.
  destruct s as [r c w v g]. simpl in *. by subst.
Qed.

(** C9: every construction [GUI(rows, width)] that returns has created the
    graph with [round(rows / 2)] rows and cells of width
    [2 * round(width / rows)], while [columns] keeps the full argument.
    [GUI(0, width)] raises ZeroDivisionError, a [rows] whose half is too
    large for a float raises OverflowError, and no construction with a
    negative width returns.  For sizes below [2^52] and a window the
    display opens, the construction returns, and the rounding is to the
    nearest integer, halves to the even one: the grid has half the rows the
    argument announces, exactly for an even argument and up to one half for
    an odd one, and [width / rows] is at most one half away from half the
    cell width. *)
Theorem init_builds_half_the_rows {display : Display} rows width :
  (forall s,
     init rows width = inr s ->
     py_round_div rows 2 = inr (GUI.rows s) /\
     (exists cells,
        py_round_div width rows = inr cells /\ vertex_width s = 2 * cells) /\
     columns s = rows /\
     GUI.width s = width /\
     graph s = Graph.new (GUI.rows s) (vertex_width s) /\
     length (grid (graph s)) = Z.to_nat (GUI.rows s)) /\
  (rows = 0 -> init rows width = inl ZeroDivisionError) /\
  (float_limit * 2 <= Z.abs rows -> init rows width = inl OverflowError) /\
  (width < 0 -> forall s, init rows width <> inr s) /\
  (rows <> 0 -> Z.abs rows < 2 ^ 52 -> Z.abs width < 2 ^ 52 ->
   set_mode width = None ->
   exists s cells,
     init rows width = inr s /\
     columns s = rows /\
     -1 <= 2 * GUI.rows s - rows <= 1 /\
     (Z.even rows = true -> 2 * GUI.rows s = rows) /\
     (Z.odd rows = true -> Z.even (GUI.rows s) = true) /\
     vertex_width s = 2 * cells /\
     Z.abs (2 * width - 2 * cells * rows) <= Z.abs rows /\
     (Z.abs (2 * width - 2 * cells * rows) = Z.abs rows ->
      Z.even cells = true)).
Proof.
  split; [|split; [|split; [|split]]].
  - intros s Hinit.
    destruct (init_returns rows width s Hinit)
      as (Hrows & Hcells & Hcolumns & Hwidth & Hgraph & _).
    repeat split; try done.
    rewrite Hgraph. apply length_grid_new.
  - intros ->. reflexivity.
  - intros Hlarge. unfold init, py_round_div.
    change (2 =? 0) with false. change (Z.abs 2) with 2. cbv iota.
    by destruct (Z.leb_spec (float_limit * 2) (Z.abs rows)); [|lia].
  - intros Hneg s Hinit.
    destruct (init_returns rows width s Hinit) as (_ & _ & _ & _ & _ & Hmode).
    by rewrite (set_mode_negative width Hneg) in Hmode.
  - intros Hrows Hsmall Hwidth Hmode. unfold init.
    rewrite (py_round_div_exact rows 2), (py_round_div_exact width rows), Hmode
      by (done || lia).
    eexists _, _. split; [reflexivity|]. simpl.
    destruct (round_half_even_2 rows) as (Hhalf & Heven & Hodd).
    repeat split; try done; try lia.
    + destruct (Z.lt_total rows 0) as [Hneg|[->|Hpos]]; [|done|].
      * rewrite (round_half_even_negative width rows Hneg).
        destruct (round_half_even_spec width (- rows)) as [Hnear _]; [lia|].
        nia.
      * destruct (round_half_even_spec width rows) as [Hnear _]; [lia|]. nia.
    + destruct (Z.lt_total rows 0) as [Hneg|[->|Hpos]]; [|done|].
      * rewrite (round_half_even_negative width rows Hneg).
        destruct (round_half_even_spec width (- rows)) as [_ Htie]; [lia|].
        intros Habs. rewrite Z.even_opp. apply Htie. nia.
      * destruct (round_half_even_spec width rows) as [_ Htie]; [lia|].
        intros Habs. apply Htie. nia.
Qed.

Lemma init_builds_half_the_rows_witness :
  exists s, init (display := Examples.screen) 3 80 = inr s /\
            GUI.rows s = 2 /\ columns s = 3 /\ vertex_width s = 54 /\
            length (grid (graph s)) = 2%nat.
Proof.
  destruct (init_builds_half_the_rows (display := Examples.screen) 3 80)
    as (Hall & _ & _ & _ & Hsmall).
  destruct Hsmall as (s & cells & Hs & Hc & _);
    [lia | vm_compute; reflexivity | vm_compute; reflexivity | reflexivity |].
  destruct (Hall s Hs) as (Hr & (c & Hcw & Hv) & _ & _ & _ & Hl).
  assert (Hrows : py_round_div 3 2 = inr 2) by (vm_compute; reflexivity).
  assert (Hcells : py_round_div 80 3 = inr 27) by (vm_compute; reflexivity).
  rewrite Hrows in Hr. rewrite Hcells in Hcw.
  injection Hr as Hr. injection Hcw as Hcw.
  exists s. rewrite Hl, Hv, <- Hr, <- Hcw. by repeat split.
Defined.

End Constructor.

(** ** Pointer events *)

Section Pointer.

Import Graph GUI.
Context {alg : Graph.Algorithms}.

Lemma left_click_raise m s e :
  clicked_node m s = mkRun (inl e) s [] ->
  left_click m s = mkRun (inl e) s [].
Proof. apply bind_raises. Qed.

Lemma middle_click_raise m s e :
  clicked_node m s = mkRun (inl e) s [] ->
  middle_click m s = mkRun (inl e) s [].
Proof. apply bind_raises. Qed.

Lemma right_click_raise m s e :
  clicked_node m s = mkRun (inl e) s [] ->
  right_click m s = mkRun (inl e) s [].
Proof. apply bind_raises. Qed.

Lemma state_at_node g p n :
  node_at g p = Some n -> state_at g p = Some (Node.state n).
Proof. unfold state_at. by intros ->. Qed.

Lemma state_at_set_start g p n :
  node_at g p = Some n -> state_at (set_start p g) p = Some START.
Proof.
  intros Hn.
  change (state_at (alter_node (Node.set_state START) p g) p = Some START).
  rewrite state_at_set_state, decide_True by done.
  by rewrite (state_at_node _ _ _ Hn).
Qed.

Lemma state_at_set_end g p n :
  node_at g p = Some n -> state_at (set_end p g) p = Some END.
Proof.
  intros Hn.
  change (state_at (alter_node (Node.set_state END) p g) p = Some END).
  rewrite state_at_set_state, decide_True by done.
  by rewrite (state_at_node _ _ _ Hn).
Qed.

Lemma state_at_set_barrier g p n :
  node_at g p = Some n ->
  state_at (alter_node Node.set_barrier p g) p = Some BARRIER.
Proof.
  intros Hn. unfold Node.set_barrier.
  rewrite state_at_set_state, decide_True by done.
  by rewrite (state_at_node _ _ _ Hn).
Qed.

(** Whatever the pointer branch and the clicked cell, a handled event
    returns normally once its cell has been found. *)
Lemma handle_event_returns ev m s p n :
  clicked_node m s = mkRun (inr (p, n)) s [] ->
  value (handle_event ev m s) = inr tt.
Proof.
  intros Hrun. unfold handle_event.
  destruct (pressed 0 m).
  { rewrite (left_click_run _ _ _ _ Hrun). simpl.
    destruct (negb _ && _); [done|]. by destruct (_ && _ && _). }
  destruct (pressed 1 m).
  { rewrite (middle_click_run _ _ _ _ Hrun). simpl.
    destruct (_ && _ && _); [|done]. by destruct (paths _). }
  destruct (pressed 2 m).
  { rewrite (right_click_run _ _ _ _ Hrun). simpl.
    destruct (_ || _ || _); [|done].
    destruct (node_eq p (start _)); [done|].
    destruct (node_eq p (end_ _)); [|done]. by destruct (paths _). }
  destruct ev; try done. rewrite key_press_run. simpl.
  repeat (match goal with |- context [if ?b then _ else _] => destruct b end;
          try done).
Qed.

(** C2 (as amended): a pointer event at pixel [(x, y)], handled with a
    non-zero cell width, is mapped to [(row, col) = (y // width, x // width)]
    by floor division, and the cell is fetched as [grid[row][col]] with no
    bounds check before: inside the grid the handler works on that very
    cell and returns; below the last row or right of the last column the
    subscript raises IndexError, which leaves the handler with the graph
    untouched. *)
Theorem click_is_fetched_without_bounds_check s ev m :
  vertex_width s <> 0 ->
  pressed 0 m || pressed 1 m || pressed 2 m = true ->
  value (get_click_pos (get_pos m) s) =
    inr (snd (get_pos m) / vertex_width s, fst (get_pos m) / vertex_width s) /\
  (forall p, points_at s m p ->
     exists n, node_at (graph s) p = Some n /\
               clicked_node m s = mkRun (inr (p, n)) s [] /\
               value (handle_event ev m s) = inr tt) /\
  (points_beyond s m ->
     handle_event ev m s = mkRun (inl IndexError) s []).
Proof.
  intros Hw Hbutton. split; [|split].
  - destruct (get_pos m) as [x y]. rewrite get_click_pos_run.
    apply Z.eqb_neq in Hw. by rewrite Hw.
  - intros p Hp. destruct (clicked_node_points_at _ _ _ Hp) as (n & Hn & Hrun).
    exists n. repeat split; [done..|]. by eapply handle_event_returns.
  - intros Hout. apply clicked_node_points_beyond in Hout.
    unfold handle_event.
    destruct (pressed 0 m); [by apply left_click_raise|].
    destruct (pressed 1 m); [by apply middle_click_raise|].
    destruct (pressed 2 m); [by apply right_click_raise|].
    discriminate.
Qed.

(** C3 (as amended): a left button press over a cell of the grid makes
    that cell the START cell if no start is designated and the cell is not
    the end cell; otherwise it makes the cell a BARRIER if and only if no
    path has been computed and the cell is neither the start nor the end
    cell, whatever state the cell is in, and changes nothing if not. *)
Theorem left_click_sets_start_or_barrier s ev m p :
  pressed 0 m = true -> points_at s m p ->
  let g := graph s in
  let r := handle_event ev m s in
  value r = inr tt /\
  (start g = None /\ end_ g <> Some p ->
     calls r = [Set_start p] /\
     final r = with_graph (set_start p g) s /\
     start (graph (final r)) = Some p /\
     state_at (graph (final r)) p = Some START) /\
  (~ (start g = None /\ end_ g <> Some p) ->
     (paths g = false /\ start g <> Some p /\ end_ g <> Some p ->
        calls r = [Set_barrier p] /\
        final r = with_graph (alter_node Node.set_barrier p g) s /\
        state_at (graph (final r)) p = Some BARRIER) /\
     (~ (paths g = false /\ start g <> Some p /\ end_ g <> Some p) ->
        calls r = [] /\ final r = s)).
Proof.
  intros H0 Hp. destruct (clicked_node_points_at _ _ _ Hp) as (n & Hn & Hrun).
  simpl. unfold handle_event. rewrite H0, (left_click_run _ _ _ _ Hrun). simpl.
  destruct (negb (truthy (start (graph s))) && node_ne p (end_ (graph s)))
    eqn:E1.
  { apply andb_true_iff in E1 as [E1 E2].
    apply negb_true_iff, truthy_false in E1. apply node_ne_true in E2.
    split; [done|]. split; [|tauto]. intros _. simpl.
    repeat split. by eapply state_at_set_start. }
  assert (Hnot : ~ (start (graph s) = None /\ end_ (graph s) <> Some p)).
  { intros [Ha Hb]. apply truthy_false in Ha. apply node_ne_true in Hb.
    rewrite Ha, Hb in E1. discriminate. }
  destruct (node_ne p (end_ (graph s)) && node_ne p (start (graph s))
            && negb (paths (graph s))) eqn:E2.
  - apply andb_true_iff in E2 as [E2 E4]. apply andb_true_iff in E2 as [E2 E3].
    apply node_ne_true in E2, E3. apply negb_true_iff in E4.
    split; [done|]. split; [tauto|]. intros _. split; [|tauto]. intros _.
    simpl. repeat split. by eapply state_at_set_barrier.
  - split; [done|]. split; [tauto|]. intros _. split; [|done].
    intros (Ha & Hb & Hc). apply node_ne_true in Hb, Hc.
    rewrite Ha, Hb, Hc in E2. discriminate.
Qed.

(** C4 (as amended): a middle button press over a cell of the grid makes
    that cell the END cell if and only if no end is designated, the cell is
    not the start cell and the cell is not a BARRIER (after which the path
    is re-marked when one exists); in every other case the end reference
    and all cells stay as they are. *)
Theorem middle_click_sets_end s ev m p :
  pressed 0 m = false -> pressed 1 m = true -> points_at s m p ->
  let g := graph s in
  let r := handle_event ev m s in
  let allowed :=
    end_ g = None /\ start g <> Some p /\ state_at g p <> Some BARRIER in
  value r = inr tt /\
  (allowed ->
     calls r = Set_end p :: (if paths g then [Mark_path false] else []) /\
     final r = with_graph (if paths g then mark_path false (set_end p g)
                           else set_end p g) s /\
     end_ (set_end p g) = Some p /\
     state_at (set_end p g) p = Some END) /\
  (~ allowed -> calls r = [] /\ final r = s).
Proof.
  intros H0 H1 Hp. destruct (clicked_node_points_at _ _ _ Hp) as (n & Hn & Hrun).
  simpl. unfold handle_event.
  rewrite H0, H1, (middle_click_run _ _ _ _ Hrun). simpl.
  rewrite (state_at_node _ _ _ Hn).
  destruct (negb (truthy (end_ (graph s))) && node_ne p (start (graph s))
            && negb (state_is BARRIER n)) eqn:E.
  - apply andb_true_iff in E as [E E3]. apply andb_true_iff in E as [E1 E2].
    apply negb_true_iff, truthy_false in E1. apply node_ne_true in E2.
    apply negb_true_iff, state_is_false in E3.
    assert (Hend : state_at (set_end p (graph s)) p = Some END)
      by by eapply state_at_set_end.
    destruct (paths (graph s)); simpl; (split; [done|]);
      (split; [done|]); intros Hnot; exfalso; apply Hnot;
      repeat split; congruence.
  - split; [done|]. split; [|done].
    intros (Ha & Hb & Hc). apply truthy_false in Ha. apply node_ne_true in Hb.
    assert (Hd : state_is BARRIER n = false)
      by (apply state_is_false; congruence).
    rewrite Ha, Hb, Hd in E. discriminate.
Qed.

End Pointer.

(** ** Editing while a path exists *)

Section PathExists.

Import Graph GUI.
Context {alg : Graph.Algorithms}.

(** With a path on the grid, a right click on a cell that is not in state
    END does nothing. *)
Lemma right_click_elsewhere_while_path s m p :
  paths (graph s) = true -> points_at s m p ->
  state_at (graph s) p <> Some END ->
  right_click m s = mkRun (inr tt) s [].
Proof.
  intros Hpaths Hp Hstate.
  destruct (clicked_node_points_at _ _ _ Hp) as (n & Hn & Hrun).
  rewrite (right_click_run _ _ _ _ Hrun). simpl. rewrite Hpaths. simpl.
  rewrite (state_at_node _ _ _ Hn) in Hstate.
  assert (E : state_is END n = false) by (apply state_is_false; congruence).
  by rewrite E.
Qed.

(** No branch of the handler places a barrier while a path exists. *)
Lemma no_barrier_while_path s ev m p :
  paths (graph s) = true -> ~ In (Set_barrier p) (calls (handle_event ev m s)).
Proof.
  intros Hpaths. unfold handle_event.
  destruct (pressed 0 m).
  { destruct (clicked_node_run m s) as ([e|[q n]] & Hrun & _).
    { rewrite (left_click_raise _ _ _ Hrun). simpl. tauto. }
    rewrite (left_click_run _ _ _ _ Hrun). simpl. rewrite Hpaths.
    destruct (negb _ && _); simpl; [intros [?|[]]; discriminate|].
    rewrite andb_false_r. simpl. tauto. }
  destruct (pressed 1 m).
  { destruct (clicked_node_run m s) as ([e|[q n]] & Hrun & _).
    { rewrite (middle_click_raise _ _ _ Hrun). simpl. tauto. }
    rewrite (middle_click_run _ _ _ _ Hrun). simpl. rewrite Hpaths.
    destruct (_ && _ && _); simpl; [|tauto].
    intros [?|[?|[]]]; discriminate. }
  destruct (pressed 2 m).
  { destruct (clicked_node_run m s) as ([e|[q n]] & Hrun & _).
    { rewrite (right_click_raise _ _ _ Hrun). simpl. tauto. }
    rewrite (right_click_run _ _ _ _ Hrun). simpl. rewrite Hpaths.
    destruct (_ || _ || _); simpl; [|tauto].
    destruct (node_eq q (start _)); simpl; [intros [?|[?|[]]]; discriminate|].
    destruct (node_eq q (end_ _)); simpl; [|intros [?|[]]; discriminate].
    intros [?|[?|[?|[?|[]]]]]; discriminate. }
  destruct ev as [|key|]; [simpl; tauto| |simpl; tauto].
  rewrite key_press_run. simpl.
  repeat (match goal with |- context [if ?b then _ else _] => destruct b end;
          simpl; try tauto; try (intuition discriminate)).
Qed.

(** C1 (as amended): while a computed path exists, no pointer event places
    a barrier; a left click changes nothing when a start is designated; a
    middle click changes nothing when an end is designated; a right click
    on a cell that is not in state END changes nothing, so neither the
    start cell nor a barrier can be cleared.  The end cell alone stays
    editable: it can be deleted and, once deleted, set again. *)
Theorem edits_while_path_exists s ev m :
  paths (graph s) = true ->
  let r := handle_event ev m s in
  (forall p, ~ In (Set_barrier p) (calls r)) /\
  (pressed 0 m = true -> start (graph s) <> None ->
     calls r = [] /\ final r = s) /\
  (pressed 0 m = false -> pressed 1 m = true -> end_ (graph s) <> None ->
     calls r = [] /\ final r = s) /\
  (pressed 0 m = false -> pressed 1 m = false -> pressed 2 m = true ->
   forall p, points_at s m p -> state_at (graph s) p <> Some END ->
     calls r = [] /\ final r = s).
Proof.
  intros Hpaths. simpl. split; [|split; [|split]].
  - intros p. by apply no_barrier_while_path.
  - intros H0 Hstart. unfold handle_event. rewrite H0.
    apply truthy_true in Hstart.
    destruct (clicked_node_run m s) as ([e|[q n]] & Hrun & _).
    { by rewrite (left_click_raise _ _ _ Hrun). }
    rewrite (left_click_run _ _ _ _ Hrun). simpl.
    rewrite Hstart, Hpaths. simpl. by rewrite andb_false_r.
  - intros H0 H1 Hend. unfold handle_event. rewrite H0, H1.
    apply truthy_true in Hend.
    destruct (clicked_node_run m s) as ([e|[q n]] & Hrun & _).
    { by rewrite (middle_click_raise _ _ _ Hrun). }
    rewrite (middle_click_run _ _ _ _ Hrun). simpl.
    by rewrite Hend.
  - intros H0 H1 H2 p Hp Hstate. unfold handle_event. rewrite H0, H1, H2.
    by rewrite (right_click_elsewhere_while_path _ _ _ Hpaths Hp Hstate).
Qed.

(** C10: a right click on the current END cell while a path exists resets
    the cell, calls [mark_path(True)], sets the former end cell CLOSED and
    clears the end reference, in this order; a right click on any cell in
    another state does nothing then, so the END cell is the one cell that
    can still be deleted. *)
Theorem right_click_on_end_while_path_exists s ev m p :
  pressed 0 m = false -> pressed 1 m = false -> pressed 2 m = true ->
  paths (graph s) = true ->
  points_at s m p ->
  state_at (graph s) p = Some END ->
  end_ (graph s) = Some p ->
  start (graph s) <> Some p ->
  let r := handle_event ev m s in
  let g1 := alter_node Node.reset p (graph s) in
  value r = inr tt /\
  calls r = [Node_reset p; Mark_path true; Set_closed p; Clear_end] /\
  final r =
    with_graph (clear_end (alter_node Node.set_closed p (mark_path true g1)))
               s /\
  state_at g1 p = Some EMPTY /\
  end_ (graph (final r)) = None /\
  (Frame alg -> state_at (graph (final r)) p = Some CLOSED) /\
  (forall m' q,
     pressed 0 m' = false -> pressed 1 m' = false -> pressed 2 m' = true ->
     points_at s m' q -> state_at (graph s) q <> Some END ->
     handle_event ev m' s = mkRun (inr tt) s []).
Proof.
  intros H0 H1 H2 Hpaths Hp Hstate Hend Hstart.
  destruct (clicked_node_points_at _ _ _ Hp) as (n & Hn & Hrun).
  simpl. unfold handle_event at 1 2 3 4 5.
  rewrite H0, H1, H2, (right_click_run _ _ _ _ Hrun). simpl.
  rewrite (state_at_node _ _ _ Hn) in Hstate.
  assert (E : state_is END n = true) by (apply state_is_true; congruence).
  assert (E1 : node_eq p (start (graph s)) = false).
  { apply negb_false_iff. by apply node_ne_true. }
  assert (E2 : node_eq p (end_ (graph s)) = true).
  { apply negb_true_iff. by apply node_ne_false. }
  rewrite E, E1, E2, Hpaths. simpl.
  assert (Hg1 : state_at (alter_node Node.reset p (graph s)) p = Some EMPTY).
  { unfold Node.reset. rewrite state_at_set_state, decide_True by done.
    by rewrite (state_at_node _ _ _ Hn). }
  repeat split; try done.
  - intros frame. unfold state_at at 1. simpl.
    change (state_at (alter_node (Node.set_state CLOSED) p
              (mark_path true (alter_node Node.reset p (graph s)))) p =
            Some CLOSED).
    rewrite state_at_set_state, decide_True by done.
    destruct (mark_path_frame true (alter_node Node.reset p (graph s)))
      as (_ & _ & Hmp).
    destruct (Hmp p) as [Heq|(s' & Hs' & _)].
    + by rewrite Heq, Hg1.
    + by rewrite Hs'.
  - intros m' q H0' H1' H2' Hq Hq'. unfold handle_event.
    rewrite H0', H1', H2'.
    by apply (right_click_elsewhere_while_path _ _ q).
Qed.

End PathExists.

(** ** Key commands *)

Section Keys.

Import Graph GUI.
Context {alg : Graph.Algorithms}.

Lemma no_button_pressed m :
  get_pressed m = (false, false, false) <->
  pressed 0 m = false /\ pressed 1 m = false /\ pressed 2 m = false.
Proof.
  unfold pressed. destruct (get_pressed m) as [[b0 b1] b2]. simpl.
  split; [by intros [= -> -> ->]|by intros (-> & -> & ->)].
Qed.

(** The searches and the maze generator are started by key commands only:
    a handled event that calls one of them is a key press, handled while no
    button is held. *)
Lemma algorithms_start_from_keys s ev m c :
  c = A_star \/ c = Dijkstra \/ c = Generate_maze ->
  In c (calls (handle_event ev m s)) ->
  get_pressed m = (false, false, false) /\
  exists key, ev = KEYDOWN key /\ In c (calls (key_press key s)).
Proof.
  intros Hc. unfold handle_event.
  destruct (pressed 0 m) eqn:H0.
  { destruct (clicked_node_run m s) as ([e|[q n]] & Hrun & _).
    { by rewrite (left_click_raise _ _ _ Hrun). }
    rewrite (left_click_run _ _ _ _ Hrun). simpl.
    destruct (negb _ && _); simpl; [intuition congruence|].
    destruct (_ && _ && _); simpl; intuition congruence. }
  destruct (pressed 1 m) eqn:H1.
  { destruct (clicked_node_run m s) as ([e|[q n]] & Hrun & _).
    { by rewrite (middle_click_raise _ _ _ Hrun). }
    rewrite (middle_click_run _ _ _ _ Hrun). simpl.
    destruct (_ && _ && _); simpl; [|tauto].
    destruct (paths _); simpl; intuition congruence. }
  destruct (pressed 2 m) eqn:H2.
  { destruct (clicked_node_run m s) as ([e|[q n]] & Hrun & _).
    { by rewrite (right_click_raise _ _ _ Hrun). }
    rewrite (right_click_run _ _ _ _ Hrun). simpl.
    destruct (_ || _ || _); simpl; [|tauto].
    destruct (node_eq q (start _)); simpl; [intuition congruence|].
    destruct (node_eq q (end_ _)); simpl; [|intuition congruence].
    destruct (paths _); simpl; intuition congruence. }
  destruct ev as [|key|]; [simpl; tauto| |simpl; tauto].
  intros Hin. split; [by apply no_button_pressed|]. by exists key.
Qed.

(** C5 (as amended): whatever the event, the handler starts A* only when a
    start and an end cell are designated, and only for the A* key, and
    Dijkstra only when a start cell is designated, and only for its key; a
    press of the A* key without both cells, or of the Dijkstra key without a
    start cell, handled while no button is held, is ignored: nothing is
    called and the object is as before. *)
Theorem searches_need_their_cells s ev m :
  let g := graph s in
  let r := handle_event ev m s in
  (In A_star (calls r) ->
     start g <> None /\ end_ g <> None /\ ev = KEYDOWN K_a) /\
  (In Dijkstra (calls r) -> start g <> None /\ ev = KEYDOWN K_d) /\
  (get_pressed m = (false, false, false) ->
     (ev = KEYDOWN K_a -> start g = None \/ end_ g = None ->
        r = mkRun (inr tt) s []) /\
     (ev = KEYDOWN K_d -> start g = None -> r = mkRun (inr tt) s []) /\
     (ev = KEYDOWN K_a -> start g <> None -> end_ g <> None ->
        exists rest, calls r = A_star :: rest) /\
     (ev = KEYDOWN K_d -> start g <> None ->
        exists rest, calls r = Dijkstra :: rest)).
Proof.
  simpl. split; [|split].
  - intros Hin.
    apply algorithms_start_from_keys in Hin as (_ & key & -> & Hin); [|auto].
    revert Hin. rewrite key_press_run. simpl.
    destruct (key =? K_ESCAPE); [simpl; intuition discriminate|].
    destruct (key =? K_c); [simpl; intuition discriminate|].
    destruct (truthy (start (graph s)) && truthy (end_ (graph s))
              && (key =? K_a)) eqn:E.
    { apply andb_true_iff in E as [E E3]. apply andb_true_iff in E as [E1 E2].
      apply truthy_true in E1, E2. apply Z.eqb_eq in E3. by subst. }
    destruct (truthy (start (graph s)) && (key =? K_d)).
    { simpl. destruct (truthy (end_ (dijkstra (graph s)))); simpl;
        intuition discriminate. }
    destruct (key =? K_m); simpl; intuition discriminate.
  - intros Hin.
    apply algorithms_start_from_keys in Hin as (_ & key & -> & Hin); [|auto].
    revert Hin. rewrite key_press_run. simpl.
    destruct (key =? K_ESCAPE); [simpl; intuition discriminate|].
    destruct (key =? K_c); [simpl; intuition discriminate|].
    destruct (truthy (start (graph s)) && truthy (end_ (graph s))
              && (key =? K_a)).
    { simpl. destruct (truthy (end_ (a_star (graph s)))); simpl;
        intuition discriminate. }
    destruct (truthy (start (graph s)) && (key =? K_d)) eqn:E.
    { apply andb_true_iff in E as [E1 E2].
      apply truthy_true in E1. apply Z.eqb_eq in E2. by subst. }
    destruct (key =? K_m); simpl; intuition discriminate.
  - intros Hm. apply no_button_pressed in Hm as (H0 & H1 & H2).
    unfold handle_event. rewrite H0, H1, H2.
    repeat split.
    + intros -> Hmiss. rewrite key_press_run. simpl.
      change (K_a =? K_ESCAPE) with false. change (K_a =? K_c) with false.
      change (K_a =? K_d) with false. change (K_a =? K_m) with false.
      cbv iota. rewrite andb_false_r.
      destruct Hmiss as [Hmiss|Hmiss]; apply truthy_false in Hmiss;
        rewrite Hmiss; simpl; [done|]. by rewrite andb_false_r.
    + intros -> Hmiss. rewrite key_press_run. simpl.
      change (K_d =? K_ESCAPE) with false. change (K_d =? K_c) with false.
      change (K_d =? K_a) with false. change (K_d =? K_m) with false.
      cbv iota. rewrite andb_false_r.
      apply truthy_false in Hmiss. by rewrite Hmiss.
    + intros -> Hs He. rewrite key_press_run. simpl.
      change (K_a =? K_ESCAPE) with false. change (K_a =? K_c) with false.
      cbv iota. apply truthy_true in Hs, He. rewrite Hs, He. simpl.
      eauto.
    + intros -> Hs. rewrite key_press_run. simpl.
      change (K_d =? K_ESCAPE) with false. change (K_d =? K_c) with false.
      change (K_d =? K_a) with false.
      cbv iota. rewrite andb_false_r.
      apply truthy_true in Hs. rewrite Hs. simpl. eauto.
Qed.

(** C7 (as amended): the maze key, handled while no pointer button is
    held, makes the handler call [reset] and then [generate_maze], in this
    order, and nothing else: the graph afterwards is the generator's
    result on the reset graph, a grid of EMPTY cells without start, end or
    path, and the sizes of the object stay as they were.  Whenever the
    handler calls the generator, this is the event it handles: the
    generator never starts from a graph that has not just been reset. *)
Theorem maze_follows_full_reset s ev m :
  let r := handle_event ev m s in
  (get_pressed m = (false, false, false) -> ev = KEYDOWN K_m ->
     value r = inr tt /\
     calls r = [Graph_reset; Generate_maze] /\
     graph (final r) = generate_maze (reset (graph s)) /\
     is_reset (reset (graph s)) /\
     rows (final r) = rows s /\ columns (final r) = columns s /\
     width (final r) = width s /\ vertex_width (final r) = vertex_width s) /\
  (In Generate_maze (calls r) ->
     get_pressed m = (false, false, false) /\
     ev = KEYDOWN K_m /\
     calls r = [Graph_reset; Generate_maze] /\
     graph (final r) = generate_maze (reset (graph s)) /\
     is_reset (reset (graph s))).
Proof.
  cbv zeta.
  assert (Hkey : get_pressed m = (false, false, false) -> ev = KEYDOWN K_m ->
            handle_event ev m s =
            mkRun (inr tt) (with_graph (generate_maze (reset (graph s))) s)
                  [Graph_reset; Generate_maze]).
  { intros Hm ->. apply no_button_pressed in Hm as (H0 & H1 & H2).
    unfold handle_event. rewrite H0, H1, H2, key_press_run. simpl.
    change (K_m =? K_ESCAPE) with false. change (K_m =? K_c) with false.
    change (K_m =? K_a) with false. change (K_m =? K_d) with false.
    cbv iota. by rewrite !andb_false_r. }
  split.
  - intros Hm Hev. rewrite (Hkey Hm Hev). simpl.
    repeat split; try done; apply reset_is_reset.
  - intros Hin.
    destruct (algorithms_start_from_keys _ _ _ _
                (or_intror (or_intror eq_refl)) Hin)
      as (Hm & key & -> & Hin').
    assert (Hmaze : key = K_m).
    { revert Hin'. rewrite key_press_run. simpl.
      destruct (key =? K_ESCAPE); [simpl; intuition discriminate|].
      destruct (key =? K_c); [simpl; intuition discriminate|].
      destruct (truthy (start (graph s)) && truthy (end_ (graph s))
                && (key =? K_a)).
      { simpl. destruct (truthy (end_ (a_star (graph s)))); simpl;
          intuition discriminate. }
      destruct (truthy (start (graph s)) && (key =? K_d)).
      { simpl. destruct (truthy (end_ (dijkstra (graph s)))); simpl;
          intuition discriminate. }
      destruct (key =? K_m) eqn:E; [|simpl; tauto].
      intros _. by apply Z.eqb_eq in E. }
    subst key. rewrite (Hkey Hm eq_refl). simpl.
    repeat split; try done; apply reset_is_reset.
Qed.

End Keys.

(** ** The invariants of the grid *)

Section Invariants.

Import Graph GUI.
Context {alg : Graph.Algorithms} {frame : Graph.Frame alg}.
Context {display : Display}.

Lemma coherent_after queues s :
  coherent (graph s) -> coherent (graph (after queues s)).
Proof.
  revert s. induction queues as [|queue queues IH]; intros s Hco; [done|].
  simpl. by apply IH, coherent_handle_events.
Qed.

(** C6: from construction on, after every queue of events and after every
    single event the handler has handled, at most one cell is in state
    START, at most one in state END, the start and the end cell are
    distinct, and no BARRIER cell is the start or the end cell.  The
    algorithms of the graph enter through their frame conditions only. *)
Theorem cell_invariants_after_events rows width s0 queues ev m :
  init rows width = inr s0 ->
  cell_invariants (graph (after queues s0)) /\
  cell_invariants (graph (final (handle_event ev m (after queues s0)))).
Proof.
  intros Hinit.
  assert (Hco : coherent (graph (after queues s0))).
  { apply coherent_after.
    destruct (init_returns rows width s0 Hinit) as (_ & _ & _ & _ & -> & _).
    apply is_reset_coherent, new_is_reset. }
  split; apply coherent_cell_invariants; [done|].
  by apply coherent_handle_event.
Qed.

End Invariants.

(** ** The main loop *)

Section Loop.

Import Graph GUI.
Context {alg : Graph.Algorithms}.

Lemma bind_ok {A B} (m : M A) (k : A -> M B) s a s' l :
  m s = mkRun (inr a) s' l ->
  bind m k s =
  mkRun (value (k a s')) (final (k a s')) (l ++ calls (k a s')).
Proof. unfold bind. by intros ->. Qed.

Lemma call_pure c s :
  exec c (graph s) = graph s -> call c s = mkRun (inr tt) s [c].
Proof. unfold call. intros ->. by destruct s. Qed.

Lemma for_each_calls {A} (l : list A) (f : A -> Call) s :
  (forall a g, exec (f a) g = g) ->
  for_each l (fun a => call (f a)) s = mkRun (inr tt) s (map f l).
Proof.
  intros Hf. revert s. induction l as [|a l IH]; intros s; [done|].
  simpl. rewrite (bind_ok _ _ _ tt s [f a]) by by apply call_pure.
  by rewrite IH.
Qed.

(** Called with its argument, [draw] paints the window white, then every
    cell, row by row, as a square of the cell width at the cell's pixel
    position and in the colour of its state; then it waits and updates,
    unless [fps] is too large for a float. *)
Lemma draw_paints_every_cell fps s :
  let squares :=
    map (fun cell => Draw_rect (colour_of (Node.state cell))
                               (Node.x cell) (Node.y cell)
                               (vertex_width s) (vertex_width s))
        (concat (grid (graph s))) in
  draw [fps] s =
  if float_overflows fps
  then mkRun (inl OverflowError) s (Fill WHITE :: squares)
  else mkRun (inr tt) s
         (Fill WHITE :: squares ++ [Clock_tick fps; Display_update]).
Proof.
  assert (Hrows : forall rs,
    for_each rs (fun row => for_each row (fun cell =>
        call (Draw_rect (Node.colour cell) (Node.x cell) (Node.y cell)
                        (vertex_width s) (vertex_width s)))) s =
    mkRun (inr tt) s
      (map (fun cell => Draw_rect (colour_of (Node.state cell))
                                  (Node.x cell) (Node.y cell)
                                  (vertex_width s) (vertex_width s))
           (concat rs))).
  { induction rs as [|row rs IH]; [done|].
    simpl.
    erewrite bind_ok; [|by apply for_each_calls].
    rewrite IH. simpl. by rewrite map_app. }
  cbv zeta. unfold draw, clock_tick.
  rewrite (bind_pure _ _ s s) by done.
  rewrite (bind_ok _ _ _ tt s [Fill WHITE]) by by apply call_pure.
  rewrite (bind_ok _ _ _ tt s _ (Hrows _)).
  destruct (float_overflows fps).
  - unfold bind, raise. simpl. by rewrite app_nil_r.
  - rewrite (bind_ok _ _ _ tt s [Clock_tick fps]) by by apply call_pure.
    by rewrite call_pure by done.
Qed.

(** C8 (the defect): [loop] calls [draw] without the [fps] argument the
    method requires, so every turn of the loop in which the window has not
    been closed ends in a TypeError, after the events were handled and
    before anything is drawn. *)
Theorem loop_iteration_raises queue s :
  value (handle_events queue s) = inr true ->
  let r := loop_iteration queue s in
  value r = inl TypeError /\
  final r = final (handle_events queue s) /\
  calls r = calls (handle_events queue s) /\
  forall c, In c (calls r) ->
    match c with
    | Fill _ | Draw_rect _ _ _ _ _ | Clock_tick _ | Display_update => False
    | _ => True
    end.
Proof.
  intros Hev. simpl.
  assert (Hrun : loop_iteration queue s =
                 mkRun (inl TypeError) (final (handle_events queue s))
                       (calls (handle_events queue s))).
  { unfold loop_iteration, bind. rewrite Hev. simpl. by rewrite app_nil_r. }
  rewrite Hrun. simpl. repeat split.
  intros c Hc.
  assert (Hno : forall q s', Forall (fun c =>
      match c with
      | Fill _ | Draw_rect _ _ _ _ _ | Clock_tick _ | Display_update => False
      | _ => True
      end) (calls (handle_events q s'))).
  { clear. induction q as [|[ev m] q IH]; intros s'; [constructor|].
    assert (Hone : Forall (fun c =>
      match c with
      | Fill _ | Draw_rect _ _ _ _ _ | Clock_tick _ | Display_update => False
      | _ => True
      end) (calls (handle_event ev m s'))).
    { unfold handle_event.
      destruct (pressed 0 m).
      { destruct (clicked_node_run m s') as ([e|[p n]] & Hrun & _).
        { rewrite (left_click_raise _ _ _ Hrun). constructor. }
        rewrite (left_click_run _ _ _ _ Hrun). simpl.
        destruct (negb _ && _); [by repeat constructor|].
        destruct (_ && _ && _); by repeat constructor. }
      destruct (pressed 1 m).
      { destruct (clicked_node_run m s') as ([e|[p n]] & Hrun & _).
        { rewrite (middle_click_raise _ _ _ Hrun). constructor. }
        rewrite (middle_click_run _ _ _ _ Hrun). simpl.
        destruct (_ && _ && _); [|constructor].
        destruct (paths _); by repeat constructor. }
      destruct (pressed 2 m).
      { destruct (clicked_node_run m s') as ([e|[p n]] & Hrun & _).
        { rewrite (right_click_raise _ _ _ Hrun). constructor. }
        rewrite (right_click_run _ _ _ _ Hrun). simpl.
        destruct (_ || _ || _); [|constructor].
        destruct (node_eq p (start _)); [by repeat constructor|].
        destruct (node_eq p (end_ _)); [|by repeat constructor].
        destruct (paths _); by repeat constructor. }
      destruct ev as [|key|]; [constructor| |constructor].
      rewrite key_press_run. simpl.
      repeat (match goal with
              | |- context [if ?b then _ else _] => destruct b
              end; simpl; try by repeat constructor). }
    assert (Hstep : Forall (fun c =>
      match c with
      | Fill _ | Draw_rect _ _ _ _ _ | Clock_tick _ | Display_update => False
      | _ => True
      end) (calls (bind (handle_event ev m) (fun _ => handle_events q) s'))).
    { unfold bind. destruct (value (handle_event ev m s')); simpl; [done|].
      apply Forall_app. split; [done|apply IH]. }
    destruct ev; simpl; [constructor|done..]. }
  specialize (Hno queue s). rewrite Forall_forall in Hno.
  apply Hno. by apply list_elem_of_In.
Qed.

End Loop.

(** ** The sample sessions, checked *)

Section Samples.

Import Graph GUI Examples.

Ltac run := vm_compute; first [reflexivity | congruence | by eexists].

Lemma gui0_is_init : init (display := screen) 8 80 = inr gui0.
Proof. run. Qed.

Lemma narrow_is_init : init (display := screen) 10 84 = inr narrow.
Proof. run. Qed.

(** Beyond [2^53] the sizes show the float they went through:
    [(2^54 + 2) / 2] is not a double and [round] gets its even neighbour,
    so [GUI(2, 2^54 + 2)] has cells [2^54] wide; a number of rows of 400
    digits cannot be halved, and no window has a negative size. *)
Lemma init_rounds_through_floats :
  py_round_div (2 ^ 54 + 2) 2 = inr (2 ^ 53) /\
  init (display := screen) 2 (2 ^ 54 + 2) =
    inr (mk 1 2 (2 ^ 54 + 2) (2 ^ 54) (Graph.new 1 (2 ^ 54))) /\
  init (display := screen) 3 80 = inr (mk 2 3 80 54 (Graph.new 2 54)) /\
  init (display := screen) (10 ^ 400) 80 = inl OverflowError /\
  init (display := screen) 8 (10 ^ 400) = inl OverflowError /\
  init (display := screen) 8 (-80) = inl PygameError.
Proof. repeat split; run. Qed.

Lemma session_result :
  map (map Node.state) (grid (graph solved)) =
    [ [START; BARRIER; EMPTY; EMPTY];
      [CLOSED; BARRIER; OPEN; EMPTY];
      [CLOSED; BARRIER; CLOSED; END];
      [CLOSED; CLOSED; CLOSED; CLOSED] ] /\
  start (graph solved) = Some (0, 0)%nat /\
  end_ (graph solved) = Some (2, 3)%nat /\
  paths (graph solved) = true.
Proof. vm_compute. auto. Qed.

Lemma points_at_gui0_corner b : points_at gui0 (mkMouse b (5, 5)) (0, 0)%nat.
Proof. repeat split; run. Defined.

Lemma points_at_solved_end b : points_at solved (mkMouse b (70, 45)) (2, 3)%nat.
Proof. repeat split; run. Defined.

(** C2, as written, fails: in the 84 pixel window of [GUI(10, 84)] the grid
    is 80 pixels wide; a left click at [(82, 5)] is mapped to row 0,
    column 5 of a grid with five columns, and the handler does not ignore
    it but lets the IndexError of the subscript out. *)
Lemma click_beyond_grid_is_not_ignored :
  0 <= 82 < width narrow /\ 0 <= 5 < width narrow /\
  value (get_click_pos (82, 5) narrow) = inr (0, 5) /\
  length <$> grid (graph narrow) !! 0%nat = Some 5%nat /\
  value (handle_event (alg := alg) OTHER (left 82 5) narrow) <> inr tt /\
  handle_event (alg := alg) OTHER (left 82 5) narrow =
    mkRun (inl IndexError) narrow [].
Proof. repeat split; run. Qed.

Lemma click_is_fetched_without_bounds_check_witness :
  handle_event (alg := alg) OTHER (left 82 5) narrow =
    mkRun (inl IndexError) narrow [] /\
  value (handle_event (alg := alg) OTHER (left 5 5) gui0) = inr tt.
Proof.
  destruct (click_is_fetched_without_bounds_check (alg := alg)
              narrow OTHER (left 82 5)) as (_ & _ & Hout); [run..|].
  destruct (click_is_fetched_without_bounds_check (alg := alg)
              gui0 OTHER (left 5 5)) as (_ & Hin & _); [run..|].
  split.
  - apply Hout. split; [run|].
    right. eexists. split; [run|]. split; [reflexivity|run].
  - destruct (Hin (0, 0)%nat (points_at_gui0_corner _)) as (n & _ & _ & Hv).
    exact Hv.
Defined.

(** C3, as written, fails twice.  With an end cell in the corner and no
    start cell, a left click on that corner does not make it the START
    cell.  And after a search without a path, a left click turns a cell
    that is CLOSED, hence not free, into a BARRIER. *)
Lemma left_click_on_end_sets_no_start :
  (start (graph only_end) = None /\
   points_at only_end (left 5 5) (0, 0)%nat /\
   state_at (graph only_end) (0, 0)%nat = Some END /\
   handle_event (alg := alg) OTHER (left 5 5) only_end =
     mkRun (inr tt) only_end [] /\
   start (graph (final (handle_event (alg := alg) OTHER (left 5 5) only_end)))
     <> Some (0, 0)%nat /\
   state_at (graph (final (handle_event (alg := alg) OTHER (left 5 5) only_end)))
            (0, 0)%nat <> Some START) /\
  (start (graph explored) = Some (0, 0)%nat /\
   paths (graph explored) = false /\
   points_at explored (left 25 5) (0, 1)%nat /\
   state_at (graph explored) (0, 1)%nat = Some CLOSED /\
   calls (handle_event (alg := alg) OTHER (left 25 5) explored) =
     [Set_barrier (0, 1)%nat] /\
   state_at (graph (final (handle_event (alg := alg) OTHER (left 25 5) explored)))
            (0, 1)%nat = Some BARRIER).
Proof. repeat split; run. Qed.

Lemma left_click_sets_start_or_barrier_witness :
  state_at (graph (final (handle_event (alg := alg) OTHER (left 5 5) gui0)))
           (0, 0)%nat = Some START /\
  calls (handle_event (alg := alg) OTHER (left 25 5) only_start) =
    [Set_barrier (0, 1)%nat].
Proof.
  split.
  - destruct (left_click_sets_start_or_barrier (alg := alg) gui0 OTHER
                (left 5 5) (0, 0)%nat eq_refl (points_at_gui0_corner _))
      as (_ & Hstart & _).
    apply Hstart. split; run.
  - destruct (left_click_sets_start_or_barrier (alg := alg) only_start OTHER
                (left 25 5) (0, 1)%nat eq_refl) as (_ & _ & Hbar).
    { repeat split; run. }
    apply Hbar.
    + intros [H _]. vm_compute in H. discriminate.
    + repeat split; run.
Defined.

(** C4, as written, fails: with no end cell designated, a middle click on
    the start cell, which is not a barrier, does not make it the END
    cell. *)
Lemma middle_click_on_start_sets_no_end :
  end_ (graph only_start) = None /\
  points_at only_start (middle 5 5) (0, 0)%nat /\
  state_at (graph only_start) (0, 0)%nat = Some START /\
  state_at (graph only_start) (0, 0)%nat <> Some BARRIER /\
  handle_event (alg := alg) OTHER (middle 5 5) only_start =
    mkRun (inr tt) only_start [] /\
  end_ (graph (final (handle_event (alg := alg) OTHER (middle 5 5) only_start)))
    <> Some (0, 0)%nat.
Proof. repeat split; run. Qed.

Lemma middle_click_sets_end_witness :
  calls (handle_event (alg := alg) OTHER (middle 5 5) gui0) =
    [Set_end (0, 0)%nat] /\
  calls (handle_event (alg := alg) OTHER (middle 5 5) only_start) = [].
Proof.
  split.
  - destruct (middle_click_sets_end (alg := alg) gui0 OTHER (middle 5 5)
                (0, 0)%nat eq_refl eq_refl (points_at_gui0_corner _))
      as (_ & Hset & _).
    apply Hset. repeat split; run.
  - destruct (middle_click_sets_end (alg := alg) only_start OTHER
                (middle 5 5) (0, 0)%nat eq_refl eq_refl) as (_ & _ & Hnot).
    { repeat split; run. }
    apply Hnot. intros (_ & H & _). vm_compute in H. congruence.
Defined.

(** C1, as written, fails: after the sample session a path exists, and a
    right click on the end cell still clears the end reference and changes
    the cell; a middle click then designates a new end cell, the path still
    being there. *)
Lemma end_is_cleared_while_path_exists :
  (paths (graph solved) = true /\
   end_ (graph solved) = Some (2, 3)%nat /\
   state_at (graph solved) (2, 3)%nat = Some END /\
   calls (handle_event (alg := alg) OTHER (right 70 45) solved) =
     [Node_reset (2, 3)%nat; Mark_path true; Set_closed (2, 3)%nat; Clear_end] /\
   end_ (graph (final (handle_event (alg := alg) OTHER (right 70 45) solved)))
     = None /\
   state_at (graph (final (handle_event (alg := alg) OTHER (right 70 45) solved)))
            (2, 3)%nat = Some CLOSED /\
   final (handle_event (alg := alg) OTHER (right 70 45) solved) <> solved) /\
  (paths (graph unended) = true /\
   end_ (graph unended) = None /\
   calls (handle_event (alg := alg) OTHER (middle 70 5) unended) =
     [Set_end (0, 3)%nat; Mark_path false] /\
   end_ (graph (final (handle_event (alg := alg) OTHER (middle 70 5) unended)))
     = Some (0, 3)%nat).
Proof. repeat split; run. Qed.

Lemma edits_while_path_exists_witness :
  calls (handle_event (alg := alg) OTHER (left 50 5) solved) = [] /\
  final (handle_event (alg := alg) OTHER (left 50 5) solved) = solved.
Proof.
  assert (Hpaths : paths (graph solved) = true) by run.
  destruct (edits_while_path_exists (alg := alg) solved OTHER (left 50 5)
              Hpaths) as (_ & Hleft & _).
  apply Hleft; run.
Defined.

Lemma right_click_on_end_while_path_exists_witness :
  calls (handle_event (alg := alg) OTHER (right 70 45) solved) =
    [Node_reset (2, 3)%nat; Mark_path true; Set_closed (2, 3)%nat; Clear_end] /\
  state_at (graph (final (handle_event (alg := alg) OTHER (right 70 45) solved)))
           (2, 3)%nat = Some CLOSED.
Proof.
  assert (Hpaths : paths (graph solved) = true) by run.
  assert (Hstate : state_at (graph solved) (2, 3)%nat = Some END) by run.
  assert (Hend : end_ (graph solved) = Some (2, 3)%nat) by run.
  assert (Hstart : start (graph solved) <> Some (2, 3)%nat) by run.
  destruct (right_click_on_end_while_path_exists (alg := alg) solved OTHER
              (right 70 45) (2, 3)%nat eq_refl eq_refl eq_refl Hpaths
              (points_at_solved_end _) Hstate Hend Hstart)
    as (_ & Hcalls & _ & _ & _ & Hclosed & _).
  split; [exact Hcalls|]. apply Hclosed. apply model_frame.
Defined.

(** C5, as written, fails: the handler asks for the pressed buttons before
    it looks at the event's type, so the A* key pressed while the left
    button is held over the corner of a fresh grid, where neither start nor
    end is designated, is not a no-op: the handler takes the event for a
    click and sets the start cell. *)
Lemma key_press_with_button_held_is_a_click :
  start (graph gui0) = None /\ end_ (graph gui0) = None /\
  calls (handle_event (alg := alg) (KEYDOWN K_a) (left 5 5) gui0) =
    [Set_start (0, 0)%nat] /\
  state_at (graph gui0) (0, 0)%nat = Some EMPTY /\
  state_at (graph (final (handle_event (alg := alg) (KEYDOWN K_a) (left 5 5) gui0)))
           (0, 0)%nat = Some START /\
  final (handle_event (alg := alg) (KEYDOWN K_a) (left 5 5) gui0) <> gui0.
Proof. repeat split; run. Qed.

Lemma searches_need_their_cells_witness :
  handle_event (alg := alg) (KEYDOWN K_a) idle only_start =
    mkRun (inr tt) only_start [] /\
  handle_event (alg := alg) (KEYDOWN K_d) idle gui0 = mkRun (inr tt) gui0 [].
Proof.
  destruct (searches_need_their_cells (alg := alg) only_start (KEYDOWN K_a)
              idle) as (_ & _ & Hkeys).
  destruct (Hkeys eq_refl) as (Ha & _).
  destruct (searches_need_their_cells (alg := alg) gui0 (KEYDOWN K_d)
              idle) as (_ & _ & Hkeys0).
  destruct (Hkeys0 eq_refl) as (_ & Hd & _).
  split; [apply Ha; [reflexivity|right; run]|apply Hd; run].
Defined.

(** C7, as written, fails for the same reason: the maze key pressed while
    the right button is held over the start cell of the solved grid is
    taken for a click, which a found path makes a no-op.  Nothing is reset
    and no maze is generated; start, end and path stay where they are. *)
Lemma maze_key_with_button_held_resets_nothing :
  handle_event (alg := alg) (KEYDOWN K_m) (right 5 5) solved =
    mkRun (inr tt) solved [] /\
  start (graph solved) = Some (0, 0)%nat /\
  end_ (graph solved) = Some (2, 3)%nat /\
  paths (graph solved) = true /\
  state_at (graph solved) (0, 1)%nat = Some BARRIER.
Proof. repeat split; run. Qed.

Lemma maze_follows_full_reset_witness :
  calls (handle_event (alg := alg) (KEYDOWN K_m) idle solved) =
    [Graph_reset; Generate_maze] /\
  graph (final (handle_event (alg := alg) (KEYDOWN K_m) idle solved)) =
    @generate_maze alg (reset (graph solved)).
Proof.
  destruct (maze_follows_full_reset (alg := alg) solved (KEYDOWN K_m) idle)
    as (Hkey & _).
  destruct (Hkey eq_refl eq_refl) as (_ & Hcalls & Hgraph & _).
  by split.
Defined.

Lemma cell_invariants_after_events_witness :
  cell_invariants (graph (after (alg := alg) [session] gui0)) /\
  cell_invariants
    (graph (final (handle_event (alg := alg) OTHER (right 70 45)
                     (after (alg := alg) [session] gui0)))).
Proof.
  apply (cell_invariants_after_events (alg := alg)
           (frame := model_frame 100 [] false) (display := screen) 8 80).
  run.
Defined.

Lemma loop_iteration_raises_witness :
  value (loop_iteration (alg := alg) [] gui0) = inl TypeError /\
  value (loop_iteration (alg := alg) session gui0) = inl TypeError.
Proof.
  assert (H1 : value (handle_events (alg := alg) [] gui0) = inr true) by run.
  assert (H2 : value (handle_events (alg := alg) session gui0) = inr true)
    by run.
  split.
  - by destruct (loop_iteration_raises (alg := alg) [] gui0 H1).
  - by destruct (loop_iteration_raises (alg := alg) session gui0 H2).
Defined.

End Samples.

(** * Further properties of the front end *)

(** ** The grid lines *)

Section GridLines.

Import Graph GUI.

#[local] Instance Colour_eq_dec : EqDecision Colour.
Proof. solve_decision. Defined.

#[local] Instance Line_eq_dec : EqDecision Line.
Proof. solve_decision. Defined.

Lemma length_flat_map_const {A B} (f : A -> list B) (l : list A) k :
  (forall a, length (f a) = k) ->
  length (flat_map f l) = (length l * k)%nat.
Proof.
  intros Hf. induction l as [|a l IH]; [done|].
  simpl. rewrite length_app, Hf, IH. lia.
Qed.

Lemma filter_flat_map_const {A B} (f : A -> list B) (l : list A)
    (keep : B -> bool) k :
  (forall a, length (List.filter keep (f a)) = k) ->
  length (List.filter keep (flat_map f l)) = (length l * k)%nat.
Proof.
  intros Hf. induction l as [|a l IH]; [done|].
  simpl. rewrite List.filter_app, length_app, Hf, IH. lia.
Qed.

Lemma vertical_inj s j j' :
  vertex_width s <> 0 -> vertical s j = vertical s j' -> j = j'.
Proof.
  intros Hw [= H _]. by apply Z.mul_cancel_r in H.
Qed.

Lemma filter_vertical_once s j n :
  vertex_width s <> 0 -> 0 <= j < n ->
  length (List.filter (fun l => bool_decide (l = vertical s j))
                      (map (vertical s) (seqZ 0 n))) = 1%nat.
Proof.
  intros Hw Hj.
  assert (Hn : n = Z.of_nat (Z.to_nat n)) by lia.
  rewrite Hn in Hj |- *. clear Hn.
  induction (Z.to_nat n) as [|k IH]; [lia|].
  rewrite seqZ_S.
  change (map ?f ?l) with (fmap (M := list) f l). rewrite fmap_app.
  rewrite List.filter_app, length_app. simpl.
  destruct (decide (j = Z.of_nat k)) as [->|Hne].
  - rewrite bool_decide_eq_true_2 by done. simpl.
    assert (Hnone : forall m,
      (forall i, i ∈ seqZ 0 m -> i <> Z.of_nat k) ->
      List.filter (fun l => bool_decide (l = vertical s (Z.of_nat k)))
                  (vertical s <$> seqZ 0 m) = []).
    { intros m Hm. induction (seqZ 0 m) as [|i l IHl]; [done|].
      simpl. rewrite bool_decide_eq_false_2.
      - apply IHl. intros i' Hi'. apply Hm. by right.
      - intros Heq. apply vertical_inj in Heq; [|done].
        by apply (Hm i); [left|]. }
    rewrite Hnone; [done|].
    intros i Hi. apply elem_of_seqZ in Hi. lia.
  - rewrite bool_decide_eq_false_2.
    2:{ intros Heq. apply vertical_inj in Heq; [|done]. done. }
    simpl. rewrite Nat.add_0_r. apply IH. lia.
Qed.

(** X1: [draw_grid] draws [rows * (1 + columns)] lines, none when [rows] is
    not positive: the loop over the columns runs inside the loop over the
    rows, so with a non-zero cell width and window width every vertical line
    is drawn once per row, [rows] times in all. *)
Theorem draw_grid_repeats_vertical_lines s j :
  length (draw_grid s) =
    (Z.to_nat (rows s) * S (Z.to_nat (columns s)))%nat /\
  (rows s <= 0 -> draw_grid s = []) /\
  (vertex_width s <> 0 -> width s <> 0 -> 0 <= j < columns s ->
   length (List.filter (fun l => bool_decide (l = vertical s j))
                       (draw_grid s)) = Z.to_nat (rows s)).
Proof.
  unfold draw_grid. split; [|split].
  - rewrite (length_flat_map_const _ _ (S (Z.to_nat (columns s)))).
    + by rewrite length_seqZ.
    + intros i. simpl. by rewrite length_map, length_seqZ.
  - intros Hrows. by rewrite (seqZ_nil 0 (rows s)).
  - intros Hw Hwidth Hj.
    rewrite (filter_flat_map_const _ _ _ 1%nat).
    + rewrite length_seqZ. lia.
    + intros i. simpl. rewrite bool_decide_eq_false_2.
      * by apply filter_vertical_once.
      * unfold horizontal, vertical. intros [= H1 H2 H3 H4]. lia.
Qed.

End GridLines.

(** ** Window and grid *)

Section WindowAndGrid.

Import Graph GUI.
Context {alg : Graph.Algorithms} {display : Display}.

Lemma node_at_new rows width r c :
  (r < Z.to_nat rows)%nat -> (c < Z.to_nat rows)%nat ->
  node_at (Graph.new rows width) (r, c) = Some (Node.new r c width).
Proof.
  intros Hr Hc. unfold node_at, Graph.new. simpl.
  change (map ?f ?l) with (fmap (M := list) f l).
  rewrite list_lookup_fmap, lookup_seq_lt by done. simpl.
  change (map ?f ?l) with (fmap (M := list) f l).
  by rewrite list_lookup_fmap, lookup_seq_lt.
Qed.

(** X2: when the window width, below [2^52], is a positive multiple of a
    [rows] argument of at least 2, the cells are [2 * width / rows] pixels
    wide and [draw_grid], which loops over all [columns = rows] columns,
    puts the vertical line of column [j] inside the window exactly when
    [2 * j < rows]: the other half of the vertical lines lies at or beyond
    the right edge. *)
Theorem draw_grid_half_outside rows k s j :
  1 < rows -> 0 < k -> k * rows < 2 ^ 52 ->
  init rows (k * rows) = inr s ->
  0 <= j < columns s ->
  In (vertical s j) (draw_grid s) /\
  vertex_width s = 2 * k /\
  (fst (line_from (vertical s j)) < width s <-> 2 * j < rows).
Proof.
  intros Hrows Hk Hsmall Hinit Hj.
  apply init_exact in Hinit as ->; [|nia..].
  simpl in *. rewrite round_half_even_exact by lia.
  pose proof (round_half_even_2 rows) as [Hhalf _].
  split; [|split; [done|nia]].
  unfold draw_grid. simpl. apply in_flat_map. exists 0. split.
  - apply list_elem_of_In, elem_of_seqZ. lia.
  - right. apply in_map, list_elem_of_In, elem_of_seqZ. lia.
Qed.

(** X3: for an even positive [rows] and a window width, below [2^52], that
    is a positive multiple of it, the grid covers the window exactly, so
    every pointer position inside the window is over a cell and no event
    raises. *)
Theorem grid_covers_window rows k s ev m :
  0 < rows -> Z.even rows = true -> 0 < k -> k * rows < 2 ^ 52 ->
  init rows (k * rows) = inr s ->
  0 <= fst (get_pos m) < width s -> 0 <= snd (get_pos m) < width s ->
  Z.of_nat (length (grid (graph s))) * vertex_width s = width s /\
  (exists p, points_at s m p) /\
  value (handle_event ev m s) = inr tt.
Proof.
  intros Hrows Heven Hk Hsmall Hinit Hx Hy.
  apply init_exact in Hinit as ->; [|nia..].
  simpl in *. rewrite round_half_even_exact in * by lia.
  pose proof (round_half_even_2 rows) as (_ & Hhalf & _).
  specialize (Hhalf Heven). set (n := round_half_even rows 2) in *.
  assert (Hn : 0 < n) by lia.
  assert (Hcover : Z.of_nat (Z.to_nat n) * (2 * k) = k * rows) by nia.
  destruct (get_pos m) as [x y] eqn:Hm. simpl in *.
  assert (Hrow : 0 <= y / (2 * k) < n).
  { split; [apply Z.div_pos; lia|apply Z.div_lt_upper_bound; nia]. }
  assert (Hcol : 0 <= x / (2 * k) < n).
  { split; [apply Z.div_pos; lia|apply Z.div_lt_upper_bound; nia]. }
  assert (Hp : points_at
                 (mk n rows (k * rows) (2 * k) (Graph.new n (2 * k))) m
                 (Z.to_nat (y / (2 * k)), Z.to_nat (x / (2 * k)))).
  { unfold points_at. rewrite Hm. simpl.
    repeat split; try lia.
    rewrite node_at_new by lia. by eexists. }
  split; [by rewrite length_map, length_seq|]. split; [by eexists|].
  destruct (clicked_node_points_at _ _ _ Hp) as (cell & _ & Hrun).
  by eapply handle_event_returns.
Qed.

(** X4: drawing and clicking agree.  [draw] paints, for every cell of the
    grid, a square of the cell width at the cell's pixel position; if that
    position is the cell's column and row times the (positive) cell width,
    every pixel of the square is mapped back to the cell by a click. *)
Theorem click_finds_the_painted_cell s fps b r c cell x y :
  node_at (graph s) (r, c) = Some cell ->
  0 < vertex_width s ->
  Node.x cell = Z.of_nat c * vertex_width s ->
  Node.y cell = Z.of_nat r * vertex_width s ->
  Node.x cell <= x < Node.x cell + vertex_width s ->
  Node.y cell <= y < Node.y cell + vertex_width s ->
  In (Draw_rect (Node.colour cell) (Node.x cell) (Node.y cell)
                (vertex_width s) (vertex_width s))
     (calls (draw [fps] s)) /\
  clicked_node (mkMouse b (x, y)) s = mkRun (inr ((r, c), cell)) s [].
Proof.
  intros Hcell Hw Hcx Hcy Hx Hy. split.
  - rewrite draw_paints_every_cell.
    assert (Hsquare : forall l l', In (Draw_rect (Node.colour cell)
              (Node.x cell) (Node.y cell) (vertex_width s) (vertex_width s))
              l -> In (Draw_rect (Node.colour cell)
              (Node.x cell) (Node.y cell) (vertex_width s) (vertex_width s))
              (Fill WHITE :: l ++ l')).
    { intros l l' Hl. right. apply in_or_app. by left. }
    cbv zeta.
    destruct (float_overflows fps); simpl;
      [rewrite <- (app_nil_r (map _ _))|]; apply Hsquare.
    all: apply (in_map (fun cell => Draw_rect (colour_of (Node.state cell))
                     (Node.x cell) (Node.y cell)
                     (vertex_width s) (vertex_width s))).
    all: unfold node_at in Hcell; simpl in Hcell.
    all: destruct (grid (graph s) !! r) as [cells|] eqn:Hr; [|discriminate].
    all: simpl in Hcell; apply in_concat; exists cells.
    all: split; apply list_elem_of_In; by eapply list_elem_of_lookup_2.
  - assert (Hrow : y / vertex_width s = Z.of_nat r).
    { symmetry. apply Z.div_unique with (r := y - Node.y cell); lia. }
    assert (Hcol : x / vertex_width s = Z.of_nat c).
    { symmetry. apply Z.div_unique with (r := x - Node.x cell); lia. }
    assert (Hp : points_at s (mkMouse b (x, y)) (r, c)).
    { unfold points_at. simpl. rewrite Hrow, Hcol, !Nat2Z.id.
      repeat split; try lia. by eexists. }
    destruct (clicked_node_points_at _ _ _ Hp) as (cell' & Hcell' & Hrun).
    rewrite Hcell in Hcell'. injection Hcell' as <-. exact Hrun.
Qed.

(** X5: a window at most half as wide as [rows] gets cells of width 0
    ([round] takes the quotient down to 0); the object is built all the same,
    and from then on every event handled while a button is held raises
    ZeroDivisionError, the object staying as it was. *)
Theorem narrow_window_divides_by_zero rows width s ev m :
  0 < rows -> 0 <= 2 * width <= rows ->
  init rows width = inr s ->
  pressed 0 m || pressed 1 m || pressed 2 m = true ->
  vertex_width s = 0 /\
  handle_event ev m s = mkRun (inl ZeroDivisionError) s [].
Proof.
  intros Hrows Hwidth Hinit Hbutton.
  destruct (init_returns rows width s Hinit) as (_ & (cells & Hc & Hv) & _).
  rewrite py_round_div_small in Hc by lia. injection Hc as <-.
  split; [done|].
  assert (Hrun : forall s', vertex_width s' = 0 ->
            clicked_node m s' = mkRun (inl ZeroDivisionError) s' []).
  { intros s' Hs'. unfold clicked_node. destruct (get_pos m) as [x y].
    apply bind_raises. by rewrite get_click_pos_run, Hs'. }
  unfold handle_event.
  destruct (pressed 0 m); [by apply left_click_raise, Hrun|].
  destruct (pressed 1 m); [by apply middle_click_raise, Hrun|].
  destruct (pressed 2 m); [by apply right_click_raise, Hrun|].
  discriminate.
Qed.

End WindowAndGrid.

(** ** Queues of events *)

Section Queues.

Import Graph GUI.
Context {alg : Graph.Algorithms}.

#[local] Instance Event_eq_dec : EqDecision Event.
Proof. solve_decision. Defined.

Lemma with_graph_same s : with_graph (graph s) s = s.
Proof. by destruct s. Qed.

Lemma with_graph_twice g g' s : with_graph g (with_graph g' s) = with_graph g s.
Proof. done. Qed.


Lemma handle_events_step ev m queue s :
  ev <> QUIT ->
  handle_events ((ev, m) :: queue) s =
  bind (handle_event ev m) (fun _ => handle_events queue) s.
Proof. by destruct ev. Qed.

Lemma handle_events_cons_returns ev m queue s :
  ev <> QUIT -> value (handle_event ev m s) = inr tt ->
  handle_events ((ev, m) :: queue) s =
  mkRun (value (handle_events queue (final (handle_event ev m s))))
        (final (handle_events queue (final (handle_event ev m s))))
        (calls (handle_event ev m s) ++
         calls (handle_events queue (final (handle_event ev m s)))).
Proof.
  intros Hev Hv. rewrite (handle_events_step _ _ _ _ Hev).
  unfold bind. by rewrite Hv.
Qed.

Lemma handle_events_cons_raises ev m queue s e :
  ev <> QUIT -> value (handle_event ev m s) = inl e ->
  handle_events ((ev, m) :: queue) s =
  mkRun (inl e) (final (handle_event ev m s)) (calls (handle_event ev m s)).
Proof.
  intros Hev Hv. rewrite (handle_events_step _ _ _ _ Hev).
  unfold bind. by rewrite Hv.
Qed.

(** X7: a queue is handled event by event from the left, and handling stops
    for good at the first event that closes the window or raises: if the
    first part of a queue is handled to its end, the rest is handled from
    the object it leaves, and the calls follow one another; if not, the rest
    of the queue is never looked at. *)
Theorem handle_events_app q1 q2 s :
  let r1 := handle_events q1 s in
  let r2 := handle_events q2 (final r1) in
  (value r1 = inr true ->
     handle_events (q1 ++ q2) s =
     mkRun (value r2) (final r2) (calls r1 ++ calls r2)) /\
  (value r1 <> inr true -> handle_events (q1 ++ q2) s = r1).
Proof.
  cbv zeta. revert s. induction q1 as [|[ev m] q1 IH]; intros s.
  { split; [|done]. intros _.
    change (handle_events [] s) with (mkRun (inr true) s []).
    change ([] ++ q2) with q2. cbn [value final calls app].
    by destruct (handle_events q2 s). }
  destruct (decide (ev = QUIT)) as [->|Hev].
  { split; [discriminate|done]. }
  change (((ev, m) :: q1) ++ q2) with ((ev, m) :: (q1 ++ q2)).
  destruct (value (handle_event ev m s)) as [e|[]] eqn:Hv.
  { rewrite !(handle_events_cons_raises _ _ _ _ _ Hev Hv).
    split; [discriminate|done]. }
  rewrite !(handle_events_cons_returns _ _ _ _ Hev Hv).
  cbn [value final calls].
  destruct (IH (final (handle_event ev m s))) as [IH1 IH2]. split.
  - intros Ht. rewrite (IH1 Ht). cbn [value final calls].
    by rewrite app_assoc.
  - intros Ht. by rewrite (IH2 Ht).
Qed.

(** X8: [handle_events] returns False exactly when it meets a QUIT event,
    and True only for a queue without one; the events before the QUIT have
    been handled, those after it have not. *)
Theorem handle_events_false_on_quit queue s :
  (value (handle_events queue s) = inr true ->
     forall m, ~ In (QUIT, m) queue) /\
  (value (handle_events queue s) = inr false ->
     exists q1 m q2,
       queue = q1 ++ (QUIT, m) :: q2 /\
       value (handle_events q1 s) = inr true /\
       handle_events queue s =
         mkRun (inr false) (final (handle_events q1 s))
               (calls (handle_events q1 s))).
Proof.
  revert s. induction queue as [|[ev m] queue IH]; intros s.
  { split; [by intros _ m []|discriminate]. }
  destruct (decide (ev = QUIT)) as [->|Hev].
  { split; [discriminate|]. intros _. by exists [], m, queue. }
  destruct (value (handle_event ev m s)) as [e|[]] eqn:Hv.
  { rewrite (handle_events_cons_raises _ _ _ _ _ Hev Hv).
    split; discriminate. }
  rewrite (handle_events_cons_returns _ _ _ _ Hev Hv).
  cbn [value final calls].
  destruct (IH (final (handle_event ev m s))) as [IH1 IH2]. split.
  - intros Ht m' [Heq|Hin]; [congruence|]. by apply (IH1 Ht m').
  - intros Hf. destruct (IH2 Hf) as (q1 & m' & q2 & -> & Hq1 & Hrun).
    exists ((ev, m) :: q1), m', q2. split; [done|].
    rewrite (handle_events_cons_returns _ _ _ _ Hev Hv).
    cbn [value final calls]. split; [done|]. by rewrite Hrun.
Qed.




End Queues.

(** ** Pointer positions outside the grid, and a button held still *)

Section HeldButton.

Import Graph GUI.
Context {alg : Graph.Algorithms}.

Lemma py_getitem_wraps {A} (l : list A) i :
  - Z.of_nat (length l) <= i < 0 ->
  exists a, l !! Z.to_nat (Z.of_nat (length l) + i) = Some a /\
            py_getitem l i = Some (Z.to_nat (Z.of_nat (length l) + i), a).
Proof.
  intros Hi.
  destruct (lookup_lt_is_Some_2 l (Z.to_nat (Z.of_nat (length l) + i)))
    as [a Ha]; [lia|].
  exists a. split; [done|]. unfold py_getitem.
  replace (Z.of_nat (length l) + i) with (i + Z.of_nat (length l)) in * by lia.
  destruct (Z.ltb_spec i 0); [|lia].
  destruct (Z.leb_spec 0 (i + Z.of_nat (length l))); [|lia].
  destruct (Z.ltb_spec (i + Z.of_nat (length l)) (Z.of_nat (length l))); [|lia].
  simpl. by rewrite Ha.
Qed.

(** X10: a pointer above or left of the grid does not raise as one below or
    right of it does.  The subscripts take the negative row and column from
    the end: a position up to one grid height above and one row width left
    of the origin selects the cell that many rows from the bottom and that
    many columns from the right, and the handler works on that cell. *)
Theorem click_above_and_left_wraps_around s ev m :
  let x := fst (get_pos m) in
  let y := snd (get_pos m) in
  let w := vertex_width s in
  let nr := Z.of_nat (length (grid (graph s))) in
  0 < w -> - nr * w <= y < 0 ->
  exists cells,
    grid (graph s) !! Z.to_nat (nr + y / w) = Some cells /\
    - nr <= y / w < 0 /\
    (- Z.of_nat (length cells) * w <= x < 0 ->
     exists cell,
       cells !! Z.to_nat (Z.of_nat (length cells) + x / w) = Some cell /\
       clicked_node m s =
         mkRun (inr ((Z.to_nat (nr + y / w),
                      Z.to_nat (Z.of_nat (length cells) + x / w)), cell))
               s [] /\
       value (handle_event ev m s) = inr tt).
Proof.
  cbv zeta. destruct (get_pos m) as [x y] eqn:Hm. simpl.
  intros Hw Hy.
  assert (Hrow : - Z.of_nat (length (grid (graph s))) <= y / vertex_width s < 0).
  { split; [apply Z.div_le_lower_bound; lia|apply Z.div_lt_upper_bound; lia]. }
  destruct (py_getitem_wraps (grid (graph s)) _ Hrow) as (cells & Hcells & Hget).
  exists cells. split; [done|]. split; [done|]. intros Hx.
  assert (Hcol : - Z.of_nat (length cells) <= x / vertex_width s < 0).
  { split; [apply Z.div_le_lower_bound; lia|apply Z.div_lt_upper_bound; lia]. }
  destruct (py_getitem_wraps cells _ Hcol) as (cell & Hcell & Hget').
  exists cell. split; [done|].
  assert (Hrun : clicked_node m s =
    mkRun (inr ((Z.to_nat (Z.of_nat (length (grid (graph s))) + y / vertex_width s),
                 Z.to_nat (Z.of_nat (length cells) + x / vertex_width s)), cell))
          s []).
  { unfold clicked_node. rewrite Hm.
    erewrite bind_pure; last first.
    { rewrite get_click_pos_run.
      destruct (Z.eqb_spec (vertex_width s) 0); [lia|done]. }
    simpl. unfold grid_getitem, bind, get, raise, ret. simpl.
    rewrite Hget. simpl. by rewrite Hget'. }
  split; [done|]. by eapply handle_event_returns.
Qed.

Lemma alter_node_idem f p g :
  (forall n, f (f n) = f n) ->
  alter_node f p (alter_node f p g) = alter_node f p g.
Proof.
  intros Hf. unfold alter_node. simpl. f_equal.
  apply list_eq. intros i.
  destruct (decide (i = fst p)) as [->|Hne].
  - rewrite !list_lookup_alter_eq.
    destruct (grid g !! fst p) as [cells|]; simpl; [|done]. f_equal.
    apply list_eq. intros j.
    destruct (decide (j = snd p)) as [->|Hne].
    + rewrite !list_lookup_alter_eq.
      destruct (cells !! snd p); simpl; [|done]. by rewrite Hf.
    + by rewrite !list_lookup_alter_ne.
  - by rewrite !list_lookup_alter_ne.
Qed.

Lemma points_at_with_graph s m p g' :
  points_at s m p -> is_Some (node_at g' p) ->
  points_at (with_graph g' s) m p.
Proof. intros (Hw & Hr & Hc & Hp & _) Hn. by repeat split. Qed.

Lemma is_Some_node_at_set_state st p g q :
  is_Some (node_at g q) ->
  is_Some (node_at (alter_node (Node.set_state st) p g) q).
Proof.
  intros [n Hn]. rewrite node_at_alter_node.
  destruct (decide (p = q)); rewrite Hn; by eexists.
Qed.

Lemma is_Some_node_at_touches allowed g g' q :
  touches_only allowed g g' -> is_Some (node_at g q) ->
  is_Some (node_at g' q).
Proof.
  intros (_ & _ & H) [n Hn].
  assert (Hs : is_Some (state_at g' q)).
  { destruct (H q) as [->|(st & -> & _)]; [|by eexists].
    unfold state_at. rewrite Hn. by eexists. }
  unfold state_at in Hs. destruct (node_at g' q); [by eexists|].
  by destruct Hs.
Qed.

(** X11: while a button is held the handler takes every event of the queue
    for a click, so the same click is handled again and again; over a cell
    of the grid this is harmless.  With algorithms that meet their frame
    conditions, handling a pointer input a second time always returns and
    leaves the object as the first time left it. *)
Theorem click_twice_is_click_once {frame : Graph.Frame alg} s ev ev' m p :
  points_at s m p ->
  pressed 0 m || pressed 1 m || pressed 2 m = true ->
  let s1 := final (handle_event ev m s) in
  value (handle_event ev' m s1) = inr tt /\
  final (handle_event ev' m s1) = s1.
Proof.
  intros Hp Hbutton. cbv zeta.
  destruct (clicked_node_points_at _ _ _ Hp) as (n & Hn & Hrun).
  assert (Hsome : is_Some (node_at (graph s) p)) by by eexists.
  unfold handle_event.
  destruct (pressed 0 m) eqn:H0.
  { rewrite (left_click_run _ _ _ _ Hrun). simpl.
    destruct (negb (truthy (start (graph s))) && node_ne p (end_ (graph s)))
      eqn:E1; simpl.
    - assert (Hp1 : points_at (with_graph (set_start p (graph s)) s) m p).
      { apply points_at_with_graph; [done|].
        by apply (is_Some_node_at_set_state START). }
      destruct (clicked_node_points_at _ _ _ Hp1) as (n1 & _ & Hrun1).
      rewrite (left_click_run _ _ _ _ Hrun1). simpl.
      rewrite bool_decide_eq_true_2 by done. simpl.
      by rewrite andb_false_r.
    - destruct (node_ne p (end_ (graph s)) && node_ne p (start (graph s))
                && negb (paths (graph s))) eqn:E2; simpl.
      + assert (Hp1 : points_at
                        (with_graph (alter_node Node.set_barrier p (graph s)) s)
                        m p).
        { apply points_at_with_graph; [done|].
          by apply (is_Some_node_at_set_state BARRIER). }
        destruct (clicked_node_points_at _ _ _ Hp1) as (n1 & _ & Hrun1).
        rewrite (left_click_run _ _ _ _ Hrun1). simpl. rewrite E1, E2. simpl.
        split; [done|]. unfold with_graph. simpl. f_equal.
        by apply alter_node_idem.
      + rewrite (left_click_run _ _ _ _ Hrun). simpl. by rewrite E1, E2. }
  destruct (pressed 1 m) eqn:H1.
  { rewrite (middle_click_run _ _ _ _ Hrun). simpl.
    destruct (negb (truthy (end_ (graph s))) && node_ne p (start (graph s))
              && negb (state_is BARRIER n)) eqn:E; simpl.
    - assert (Hs1 : is_Some (node_at (set_end p (graph s)) p))
        by by apply (is_Some_node_at_set_state END).
      destruct (paths (graph s)); simpl.
      + pose proof (mark_path_frame false (set_end p (graph s))) as Hf.
        assert (Hp1 : points_at
                  (with_graph (mark_path false (set_end p (graph s))) s) m p).
        { apply points_at_with_graph; [done|].
          by eapply is_Some_node_at_touches. }
        destruct (clicked_node_points_at _ _ _ Hp1) as (n1 & _ & Hrun1).
        rewrite (middle_click_run _ _ _ _ Hrun1). simpl.
        destruct Hf as (_ & He & _). by rewrite He.
      + assert (Hp1 : points_at (with_graph (set_end p (graph s)) s) m p)
          by by apply points_at_with_graph.
        destruct (clicked_node_points_at _ _ _ Hp1) as (n1 & _ & Hrun1).
        by rewrite (middle_click_run _ _ _ _ Hrun1).
    - rewrite (middle_click_run _ _ _ _ Hrun). simpl. by rewrite E. }
  destruct (pressed 2 m) eqn:H2; [|discriminate].
  rewrite (right_click_run _ _ _ _ Hrun). simpl.
  destruct (state_is END n || negb (paths (graph s)) && state_is BARRIER n
            || negb (paths (graph s)) && state_is START n) eqn:E; simpl.
  2:{ rewrite (right_click_run _ _ _ _ Hrun). simpl. by rewrite E. }
  set (g1 := alter_node Node.reset p (graph s)).
  assert (Hg1 : state_at g1 p = Some EMPTY).
  { unfold g1, Node.reset. rewrite state_at_set_state, decide_True by done.
    by rewrite (state_at_node _ _ _ Hn). }
  assert (Hs1 : is_Some (node_at g1 p))
    by by apply (is_Some_node_at_set_state EMPTY).
  (* whatever the graph [g2] left behind, its cell at [p] is EMPTY or CLOSED *)
  assert (Hquiet : forall g2,
            is_Some (node_at g2 p) ->
            state_at g2 p = Some EMPTY \/ state_at g2 p = Some CLOSED ->
            value (right_click m (with_graph g2 s)) = inr tt /\
            final (right_click m (with_graph g2 s)) = with_graph g2 s).
  { intros g2 Hs2 Hst.
    assert (Hp2 : points_at (with_graph g2 s) m p)
      by by apply points_at_with_graph.
    destruct (clicked_node_points_at _ _ _ Hp2) as (n2 & Hn2 & Hrun2).
    rewrite (right_click_run _ _ _ _ Hrun2). simpl in *.
    rewrite (state_at_node _ _ _ Hn2) in Hst.
    assert (E1 : state_is END n2 = false)
      by (apply state_is_false; destruct Hst; congruence).
    assert (E2 : state_is BARRIER n2 = false)
      by (apply state_is_false; destruct Hst; congruence).
    assert (E3 : state_is START n2 = false)
      by (apply state_is_false; destruct Hst; congruence).
    by rewrite E1, E2, E3, !andb_false_r. }
  destruct (node_eq p (start (graph s))); simpl.
  { apply (Hquiet (clear_start g1)); [done|by left]. }
  destruct (node_eq p (end_ (graph s))); simpl.
  2:{ apply (Hquiet g1); [done|by left]. }
  destruct (paths (graph s)); simpl.
  2:{ apply (Hquiet (clear_end g1)); [done|by left]. }
  pose proof (mark_path_frame true g1) as Hf.
  assert (Hs2 : is_Some (node_at (mark_path true g1) p))
    by by eapply is_Some_node_at_touches.
  apply (Hquiet (clear_end (alter_node Node.set_closed p (mark_path true g1)))).
  - by apply (is_Some_node_at_set_state CLOSED).
  - right.
    change (state_at (alter_node (Node.set_state CLOSED) p (mark_path true g1)) p
            = Some CLOSED).
    rewrite state_at_set_state, decide_True by done.
    destruct Hs2 as [n2 Hn2]. by rewrite (state_at_node _ _ _ Hn2).
Qed.

End HeldButton.

(** ** What the handler never does *)

Section Guards.

Import Graph GUI.
Context {alg : Graph.Algorithms}.

Ltac each_call :=
  split; [|split; [|split]]; intros Hin;
  repeat (destruct Hin as [Hin|Hin]);
  try discriminate Hin; try (by destruct Hin);
  try (injection Hin as <-); try done.

(** X12: the guards of the pointer branches, read from the calls made.
    Whatever the event, the handler designates a start cell only when none
    is designated and never on the end cell; it designates an end cell only
    when none is designated, never on the start cell and never on a
    barrier; it places a barrier only once a start cell exists, never on
    the start or end cell and never while a path exists; and it resets only
    a cell in state END, BARRIER or START, the latter two only while no path
    exists. *)
Theorem handler_guards s ev m p :
  let g := graph s in
  let r := handle_event ev m s in
  (In (Set_start p) (calls r) -> start g = None /\ end_ g <> Some p) /\
  (In (Set_end p) (calls r) ->
     end_ g = None /\ start g <> Some p /\ state_at g p <> Some BARRIER) /\
  (In (Set_barrier p) (calls r) ->
     start g <> None /\ start g <> Some p /\ end_ g <> Some p /\
     paths g = false) /\
  (In (Node_reset p) (calls r) ->
     state_at g p = Some END \/
     (paths g = false /\
      (state_at g p = Some BARRIER \/ state_at g p = Some START))).
Proof.
  cbv zeta. unfold handle_event.
  destruct (pressed 0 m).
  { destruct (clicked_node_run m s) as ([e|[q n]] & Hrun & Hn).
    { rewrite (left_click_raise _ _ _ Hrun). simpl. tauto. }
    rewrite (left_click_run _ _ _ _ Hrun). simpl.
    destruct (negb (truthy (start (graph s))) && node_ne q (end_ (graph s)))
      eqn:E1; simpl.
    { apply andb_true_iff in E1 as [E1 E2].
      apply negb_true_iff, truthy_false in E1. apply node_ne_true in E2.
      each_call. }
    destruct (node_ne q (end_ (graph s)) && node_ne q (start (graph s))
              && negb (paths (graph s))) eqn:E2; simpl; [|tauto].
    apply andb_true_iff in E2 as [E2 E4]. apply andb_true_iff in E2 as [E2 E3].
    apply node_ne_true in E2, E3. apply negb_true_iff in E4.
    assert (Hstart : start (graph s) <> None).
    { intros Hnone. apply truthy_false in Hnone. apply node_ne_true in E2.
      by rewrite Hnone, E2 in E1. }
    each_call. }
  destruct (pressed 1 m).
  { destruct (clicked_node_run m s) as ([e|[q n]] & Hrun & Hn).
    { rewrite (middle_click_raise _ _ _ Hrun). simpl. tauto. }
    specialize (Hn q n eq_refl).
    rewrite (middle_click_run _ _ _ _ Hrun). simpl.
    destruct (negb (truthy (end_ (graph s))) && node_ne q (start (graph s))
              && negb (state_is BARRIER n)) eqn:E; simpl; [|tauto].
    apply andb_true_iff in E as [E E3]. apply andb_true_iff in E as [E1 E2].
    apply negb_true_iff, truthy_false in E1. apply node_ne_true in E2.
    apply negb_true_iff, state_is_false in E3.
    assert (Hst : state_at (graph s) q <> Some BARRIER).
    { rewrite (state_at_node _ _ _ Hn). congruence. }
    destruct (paths (graph s)); simpl; each_call. }
  destruct (pressed 2 m).
  { destruct (clicked_node_run m s) as ([e|[q n]] & Hrun & Hn).
    { rewrite (right_click_raise _ _ _ Hrun). simpl. tauto. }
    specialize (Hn q n eq_refl).
    rewrite (right_click_run _ _ _ _ Hrun). simpl.
    destruct (state_is END n || negb (paths (graph s)) && state_is BARRIER n
              || negb (paths (graph s)) && state_is START n) eqn:E; simpl;
      [|tauto].
    assert (Hst : state_at (graph s) q = Some END \/
                  (paths (graph s) = false /\
                   (state_at (graph s) q = Some BARRIER \/
                    state_at (graph s) q = Some START))).
    { rewrite (state_at_node _ _ _ Hn).
      apply orb_true_iff in E as [E|E]; [apply orb_true_iff in E as [E|E]|].
      - apply state_is_true in E. left. by rewrite E.
      - apply andb_true_iff in E as [E1 E2]. apply negb_true_iff in E1.
        apply state_is_true in E2. right. split; [done|]. left. by rewrite E2.
      - apply andb_true_iff in E as [E1 E2]. apply negb_true_iff in E1.
        apply state_is_true in E2. right. split; [done|]. right. by rewrite E2. }
    clear E.
    destruct (node_eq q (start (graph s))); simpl; [each_call|].
    destruct (node_eq q (end_ (graph s))); simpl; [|each_call].
    destruct (paths (graph s)) eqn:Hpaths; simpl; each_call. }
  destruct ev as [|key|]; [simpl; tauto| |simpl; tauto].
  rewrite key_press_run. simpl.
  destruct (key =? K_ESCAPE); [simpl; intuition discriminate|].
  destruct (key =? K_c); [simpl; intuition discriminate|].
  destruct (truthy (start (graph s)) && truthy (end_ (graph s)) && (key =? K_a)).
  { simpl. destruct (truthy (end_ (a_star (graph s)))); simpl;
      intuition discriminate. }
  destruct (truthy (start (graph s)) && (key =? K_d)).
  { simpl. destruct (truthy (end_ (dijkstra (graph s)))); simpl;
      intuition discriminate. }
  destruct (key =? K_m); simpl; intuition discriminate.
Qed.

End Guards.

(** ** The loop and the drawing *)

Section LoopAndDraw.

Import Graph GUI.
Context {alg : Graph.Algorithms} {display : Display}.

(** X13: [loop] never gets past its first turn.  If the first queue closes
    the window, the loop ends with [pygame.quit()] and returns; if the queue
    is handled to its end, the call of [draw] without argument raises; if
    the handler raises, so does the loop.  In no case is a later queue
    polled or anything drawn. *)
Theorem loop_ends_in_first_turn queue rest s :
  let h := handle_events queue s in
  loop (queue :: rest) s = loop [queue] s /\
  (value h = inr false ->
     loop (queue :: rest) s =
     mkRun (inr tt) (final h) (calls h ++ [Pygame_quit])) /\
  (value h = inr true ->
     loop (queue :: rest) s = mkRun (inl TypeError) (final h) (calls h)) /\
  (forall e, value h = inl e ->
     loop (queue :: rest) s = mkRun (inl e) (final h) (calls h)).
Proof.
  cbv zeta.
  assert (Hgen : forall fs,
    loop (queue :: fs) s =
    match value (handle_events queue s) with
    | inr false => mkRun (inr tt) (final (handle_events queue s))
                         (calls (handle_events queue s) ++ [Pygame_quit])
    | inr true => mkRun (inl TypeError) (final (handle_events queue s))
                        (calls (handle_events queue s))
    | inl e => mkRun (inl e) (final (handle_events queue s))
                     (calls (handle_events queue s))
    end).
  { intros fs. simpl. unfold loop_iteration, bind.
    destruct (value (handle_events queue s)) as [e|[]]; simpl.
    - done.
    - by rewrite app_nil_r.
    - by rewrite app_nil_r, with_graph_same. }
  split; [by rewrite !Hgen|].
  repeat split; intros; rewrite Hgen; by rewrite H.
Qed.

(** X14: [draw] needs exactly its one argument.  With no argument, or more
    than one, it raises before anything is drawn.  With [fps] it leaves the
    object as it is and asks pygame for one fill and one square per cell of
    the grid; then, if [fps] fits a float, for the clock tick with that very
    [fps] and, last, the display update.  If [fps] does not fit, it raises
    OverflowError after the squares, and the display is not updated. *)
Theorem draw_needs_its_argument args s :
  (length args <> 1%nat -> draw args s = mkRun (inl TypeError) s []) /\
  (forall fps, args = [fps] ->
     final (draw args s) = s /\
     exists rects,
       Forall2 (fun cell c =>
                  c = Draw_rect (Node.colour cell) (Node.x cell) (Node.y cell)
                                (vertex_width s) (vertex_width s))
               (concat (grid (graph s))) rects /\
       (Z.abs fps < float_limit ->
        value (draw args s) = inr tt /\
        calls (draw args s) =
          Fill WHITE :: rects ++ [Clock_tick fps; Display_update]) /\
       (float_limit <= Z.abs fps ->
        value (draw args s) = inl OverflowError /\
        calls (draw args s) = Fill WHITE :: rects)).
Proof.
  split.
  - intros Hlen. destruct args as [|fps [|]]; simpl in *; done.
  - intros fps ->. rewrite draw_paints_every_cell. cbv zeta.
    unfold float_overflows.
    split; [by destruct (float_limit <=? Z.abs fps)|].
    exists (map (fun cell => Draw_rect (colour_of (Node.state cell))
                               (Node.x cell) (Node.y cell)
                               (vertex_width s) (vertex_width s))
                (concat (grid (graph s)))).
    split; [|split].
    + induction (concat (grid (graph s))) as [|cell l IH]; simpl.
      * constructor.
      * constructor; [reflexivity|exact IH].
    + intros Hfps. by destruct (Z.leb_spec float_limit (Z.abs fps)); [lia|].
    + intros Hfps. by destruct (Z.leb_spec float_limit (Z.abs fps)); [|lia].
Qed.

(** X15: [GUI(1, width)] has no cell at all, since [round(1 / 2)] is 0: the
    object is built with an empty grid, with cells [2 * width] wide for a
    width below [2^52]; with an [fps] that fits a float nothing is painted
    but the background, and every event handled while a button is held
    raises, IndexError unless the cell width is 0. *)
Theorem one_row_means_no_grid width s ev m fps :
  init 1 width = inr s ->
  pressed 0 m || pressed 1 m || pressed 2 m = true ->
  rows s = 0 /\ grid (graph s) = [] /\
  (Z.abs width < 2 ^ 52 -> vertex_width s = 2 * width) /\
  (Z.abs fps < float_limit ->
   calls (draw [fps] s) = [Fill WHITE; Clock_tick fps; Display_update]) /\
  (vertex_width s <> 0 ->
   handle_event ev m s = mkRun (inl IndexError) s []).
Proof.
  intros Hinit Hbutton.
  destruct (init_returns 1 width s Hinit)
    as (Hr & (cells & Hc & Hv) & _ & _ & Hg & _).
  assert (Hhalf : py_round_div 1 2 = inr 0) by (vm_compute; reflexivity).
  rewrite Hhalf in Hr. injection Hr as Hr.
  assert (Hgrid : grid (graph s) = []) by (by rewrite Hg, <- Hr).
  split; [done|]. split; [done|]. split; [|split].
  - intros Hsmall. rewrite py_round_div_exact in Hc by lia.
    injection Hc as <-. rewrite Hv. f_equal.
    rewrite <- (Z.mul_1_r width) at 1. by apply round_half_even_exact.
  - intros Hfps. rewrite draw_paints_every_cell. cbv zeta.
    unfold float_overflows.
    destruct (Z.leb_spec float_limit (Z.abs fps)); [lia|].
    by rewrite Hgrid.
  - intros Hwidth.
    assert (Hrun : clicked_node m s = mkRun (inl IndexError) s []).
    { unfold clicked_node. destruct (get_pos m) as [x y].
      erewrite bind_pure; last first.
      { rewrite get_click_pos_run.
        destruct (Z.eqb_spec (vertex_width s) 0); [lia|done]. }
      simpl. unfold grid_getitem, bind, get, raise, ret. simpl.
      rewrite Hgrid.
      assert (Hnil : forall i, py_getitem (A := list Node.t) [] i = None).
      { intros i. unfold py_getitem. simpl length. change (Z.of_nat 0) with 0.
        destruct (i <? 0).
        - destruct (Z.leb_spec 0 (i + 0)); [|done].
          destruct (Z.ltb_spec (i + 0) 0); [lia|done].
        - destruct (Z.leb_spec 0 i); [|done].
          destruct (Z.ltb_spec i 0); [lia|done]. }
      by rewrite Hnil. }
    revert Hbutton. unfold handle_event.
    destruct (pressed 0 m); [intros _; by apply left_click_raise|].
    destruct (pressed 1 m); [intros _; by apply middle_click_raise|].
    destruct (pressed 2 m); [intros _; by apply right_click_raise|].
    discriminate.
Qed.

End LoopAndDraw.

(** ** The further properties on the sample sessions *)

Section MoreSamples.

Import Graph GUI Examples.

#[local] Existing Instance Line_eq_dec.

Ltac run := vm_compute; first [reflexivity | congruence | lia | by eexists].

Lemma draw_grid_repeats_vertical_lines_witness :
  length (draw_grid gui0) = 36%nat /\
  length (List.filter (fun l => bool_decide (l = vertical gui0 1))
                      (draw_grid gui0)) = 4%nat.
Proof.
  destruct (draw_grid_repeats_vertical_lines gui0 1) as (Hlen & _ & Hrep).
  split; [exact Hlen|]. apply Hrep; run.
Defined.

Lemma draw_grid_half_outside_witness :
  In (vertical gui0 5) (draw_grid gui0) /\
  ~ fst (line_from (vertical gui0 5)) < width gui0.
Proof.
  destruct (draw_grid_half_outside (display := screen) 8 10 gui0 5) as (Hin & _ & Hiff);
    [run..|].
  split; [exact Hin|]. intros H. apply Hiff in H. lia.
Defined.

Lemma grid_covers_window_witness :
  value (handle_event (alg := alg) OTHER (left 79 79) gui0) = inr tt.
Proof.
  destruct (grid_covers_window (alg := alg) (display := screen) 8 10 gui0
              OTHER (left 79 79))
    as (_ & _ & Hv); [run..|].
  exact Hv.
Defined.

Lemma click_finds_the_painted_cell_witness :
  clicked_node (mkMouse (false, false, true) (45, 25)) gui0 =
    mkRun (inr ((1, 2)%nat, Node.new 1 2 20)) gui0 [].
Proof.
  destruct (click_finds_the_painted_cell (alg := alg) gui0 60
              (false, false, true) 1 2 (Node.new 1 2 20) 45 25)
    as (_ & Hrun); [run..|].
  exact Hrun.
Defined.

Lemma narrow_window_divides_by_zero_witness :
  handle_event (alg := alg) OTHER (left 1 1) squeezed =
    mkRun (inl ZeroDivisionError) squeezed [].
Proof.
  destruct (narrow_window_divides_by_zero (alg := alg) (display := screen)
              4 2 squeezed OTHER (left 1 1)) as (_ & Hrun); [run..|].
  exact Hrun.
Defined.

Lemma handle_events_app_witness :
  calls (handle_events (alg := alg)
           ([(OTHER, left 5 5)] ++ [(OTHER, middle 70 45)]) gui0) =
    calls (handle_events (alg := alg) [(OTHER, left 5 5)] gui0) ++
    calls (handle_events (alg := alg) [(OTHER, middle 70 45)] only_start) /\
  handle_events (alg := alg)
    ([(OTHER, left 82 5)] ++ [(OTHER, left 5 5)]) narrow =
    handle_events (alg := alg) [(OTHER, left 82 5)] narrow.
Proof.
  split.
  - destruct (handle_events_app (alg := alg) [(OTHER, left 5 5)]
                [(OTHER, middle 70 45)] gui0) as (Happ & _).
    rewrite Happ by run. reflexivity.
  - destruct (handle_events_app (alg := alg) [(OTHER, left 82 5)]
                [(OTHER, left 5 5)] narrow) as (_ & Hstop).
    apply Hstop. run.
Defined.

Lemma handle_events_false_on_quit_witness :
  exists q1 m q2,
    [(OTHER, left 5 5); (QUIT, idle); (OTHER, middle 70 45)] =
      q1 ++ (QUIT, m) :: q2 /\
    value (handle_events (alg := alg) q1 gui0) = inr true /\
    handle_events (alg := alg)
      [(OTHER, left 5 5); (QUIT, idle); (OTHER, middle 70 45)] gui0 =
      mkRun (inr false) (final (handle_events (alg := alg) q1 gui0))
            (calls (handle_events (alg := alg) q1 gui0)).
Proof.
  destruct (handle_events_false_on_quit (alg := alg)
              [(OTHER, left 5 5); (QUIT, idle); (OTHER, middle 70 45)] gui0)
    as (_ & Hquit).
  apply Hquit. run.
Defined.


Lemma click_above_and_left_wraps_around_witness :
  exists cell,
    clicked_node (left (-1) (-1)) gui0 = mkRun (inr ((3, 3)%nat, cell)) gui0 [].
Proof.
  destruct (click_above_and_left_wraps_around (alg := alg) gui0 OTHER
              (left (-1) (-1))) as (cells & Hcells & _ & Hcol); [run..|].
  vm_compute in Hcells. injection Hcells as <-.
  destruct Hcol as (cell & _ & Hrun & _); [run|].
  exists cell. exact Hrun.
Defined.

Lemma click_twice_is_click_once_witness :
  final (handle_event (alg := alg) OTHER (left 5 5)
           (final (handle_event (alg := alg) OTHER (left 5 5) gui0))) =
  final (handle_event (alg := alg) OTHER (left 5 5) gui0).
Proof.
  destruct (click_twice_is_click_once (alg := alg)
              (frame := model_frame 100 [] false)
              gui0 OTHER OTHER (left 5 5) (0, 0)%nat
              (points_at_gui0_corner _) eq_refl) as (_ & Hsame).
  exact Hsame.
Defined.

Lemma handler_guards_witness :
  start (graph only_start) <> None /\
  paths (graph only_start) = false.
Proof.
  destruct (handler_guards (alg := alg) only_start OTHER (left 25 5)
              (0, 1)%nat) as (_ & _ & Hbarrier & _).
  destruct Hbarrier as (Hstart & _ & _ & Hpaths); [|by split].
  vm_compute. by left.
Defined.

Lemma loop_ends_in_first_turn_witness :
  loop (alg := alg) [[(QUIT, idle)]; session] gui0 =
    mkRun (inr tt) gui0 [Pygame_quit] /\
  value (loop (alg := alg) [session; [(QUIT, idle)]] gui0) = inl TypeError.
Proof.
  destruct (loop_ends_in_first_turn (alg := alg) [(QUIT, idle)] [session] gui0)
    as (_ & Hquit & _).
  destruct (loop_ends_in_first_turn (alg := alg) session [[(QUIT, idle)]] gui0)
    as (_ & _ & Hdraw & _).
  split.
  - rewrite Hquit by run. reflexivity.
  - rewrite Hdraw by run. reflexivity.
Defined.

Lemma draw_needs_its_argument_witness :
  draw (alg := alg) [60; 60] gui0 = mkRun (inl TypeError) gui0 [] /\
  value (draw (alg := alg) [60] gui0) = inr tt /\
  value (draw (alg := alg) [2 ^ 1024] gui0) = inl OverflowError.
Proof.
  split; [|split].
  - destruct (draw_needs_its_argument (alg := alg) [60; 60] gui0) as (Hbad & _).
    apply Hbad. run.
  - destruct (draw_needs_its_argument (alg := alg) [60] gui0) as (_ & Hok).
    destruct (Hok 60 eq_refl) as (_ & rects & _ & Hfits & _).
    apply Hfits. run.
  - destruct (draw_needs_its_argument (alg := alg) [2 ^ 1024] gui0)
      as (_ & Hok).
    destruct (Hok (2 ^ 1024) eq_refl) as (_ & rects & _ & _ & Hover).
    apply Hover. run.
Defined.

Lemma one_row_means_no_grid_witness :
  grid (graph single) = [] /\
  vertex_width single = 2 * 80 /\
  handle_event (alg := alg) OTHER (left 5 5) single =
    mkRun (inl IndexError) single [].
Proof.
  destruct (one_row_means_no_grid (alg := alg) (display := screen)
              80 single OTHER (left 5 5) 60)
    as (_ & Hgrid & Hwidth & _ & Hraise); [run..|].
  split; [exact Hgrid|]. split; [apply Hwidth; run|]. apply Hraise. run.
Defined.

End MoreSamples.
